(** * rich_life: Conway's Game of Life and Langton's Ant on a sparse grid

    A shallow embedding of the simulation engine of
    [src/rich_life/__main__.py] (class [GameOfLife]) and the properties of
    its specification.

    - Python [int] is [Z]; [%] and [//] are floor operations whose result
      takes the sign of the divisor, which is what [Z.modulo] and [Z.div]
      compute, except that Python raises [ZeroDivisionError] on a zero
      divisor.
    - [Dict[Tuple[int, int], int]] is [gmap (Z * Z) Z]; a Python [set] of
      coordinates is [gset (Z * Z)].
    - Exceptions are values of an error monad; [self] is passed explicitly
      and returned updated.
    - [random.choice] draws from an explicit random source that is threaded
      through the constructor. *)

From stdpp Require Import gmap strings list fin_maps fin_sets pretty.
From Stdlib Require Import ZArith Lia.

Open Scope Z_scope.

(** ** The Python runtime operations the engine uses *)

Module Py.

Inductive exn : Type :=
| ZeroDivisionError
| IndexError
| KeyError
| AttributeError.

Inductive result (A : Type) : Type :=
| Ok (a : A)
| Raise (e : exn).
Arguments Ok {A} a.
Arguments Raise {A} e.

#[global] Instance result_ret : MRet result := λ A a, Ok a.
#[global] Instance result_bind : MBind result := λ A B f m,
  match m with
  | Ok a => f a
  | Raise e => Raise e
  end.

(** [a % b] *)
Definition mod_ (a b : Z) : result Z :=
  if decide (b = 0) then Raise ZeroDivisionError else Ok (a `mod` b).

(** [a // b] *)
Definition floordiv (a b : Z) : result Z :=
  if decide (b = 0) then Raise ZeroDivisionError else Ok (a `div` b).

(** [range(n)] *)
Definition range (n : Z) : list Z :=
  map Z.of_nat (seq 0 (Z.to_nat n)).

(** [l[i]]: a negative index counts from the end, an index out of range
    raises [IndexError]. *)
Definition getitem {A} (l : list A) (i : Z) : result A :=
  let n := Z.of_nat (length l) in
  let j := if decide (i < 0) then i + n else i in
  if decide (0 ≤ j < n) then
    match l !! Z.to_nat j with
    | Some a => Ok a
    | None => Raise IndexError
    end
  else Raise IndexError.

(** [d.get(k, default)] *)
Definition dict_get (d : gmap (Z * Z) Z) (k : Z * Z) (default : Z) : Z :=
  match d !! k with
  | Some v => v
  | None => default
  end.

(** [del d[k]] *)
Definition dict_del (d : gmap (Z * Z) Z) (k : Z * Z)
  : result (gmap (Z * Z) Z) :=
  match d !! k with
  | Some _ => Ok (delete k d)
  | None => Raise KeyError
  end.

(** [for x in xs: body], the loop state threaded through the body; an
    exception in the body leaves the loop. *)
Fixpoint for_in {A S} (xs : list A) (body : A → S → result S) (s : S)
  : result S :=
  match xs with
  | [] => Ok s
  | x :: xs' => s' ← body x s; for_in xs' body s'
  end.

(** The random source: an infinite supply of draws and a cursor. The
    [i]-th call of the run picks the element at index
    [draws i mod len(seq)]. *)
Record Random : Type := mkRandom {
  draws : nat → nat;
  cursor : nat
}.

(** [random.choice(seq)] *)
Definition random_choice (seq : list Z) (r : Random)
  : result (Z * Random) :=
  match seq with
  | [] => Raise IndexError
  | _ :: _ =>
      let i := (draws r (cursor r) `mod` length seq)%nat in
      v ← getitem seq (Z.of_nat i);
      Ok (v, mkRandom (draws r) (S (cursor r)))
  end.

End Py.

Import Py.

(** ** The engine *)

Module RichLife.

Inductive NeighborhoodRules : Type := MOORE | VAN_NEUMANN.
Inductive SimulationMode : Type := LIFE | ANTS.

#[global] Instance NeighborhoodRules_eq_dec : EqDecision NeighborhoodRules.
Proof. solve_decision. Defined.
#[global] Instance SimulationMode_eq_dec : EqDecision SimulationMode.
Proof. solve_decision. Defined.

(** The attributes of a [GameOfLife] object. [ant_position] and
    [ant_direction] are set by the constructor in Ant mode only: [None]
    is the unset attribute. *)
Record GameOfLife : Type := mkGameOfLife {
  display_width : Z;
  display_height : Z;
  infinite_mode : bool;
  rules : NeighborhoodRules;
  offset : Z * Z;
  mode : SimulationMode;
  generation : Z;
  refresh_per_second : Z;
  grid : gmap (Z * Z) Z;
  ant_position : option (Z * Z);
  ant_direction : option Z
}.

Definition getattr {A} (a : option A) : result A :=
  match a with
  | Some v => Ok v
  | None => Raise AttributeError
  end.

Definition set_grid (self : GameOfLife) (g : gmap (Z * Z) Z) : GameOfLife :=
  mkGameOfLife (display_width self) (display_height self)
    (infinite_mode self) (rules self) (offset self) (mode self)
    (generation self) (refresh_per_second self) g
    (ant_position self) (ant_direction self).

Definition set_generation (self : GameOfLife) (n : Z) : GameOfLife :=
  mkGameOfLife (display_width self) (display_height self)
    (infinite_mode self) (rules self) (offset self) (mode self)
    n (refresh_per_second self) (grid self)
    (ant_position self) (ant_direction self).

Definition set_offset (self : GameOfLife) (o : Z * Z) : GameOfLife :=
  mkGameOfLife (display_width self) (display_height self)
    (infinite_mode self) (rules self) o (mode self)
    (generation self) (refresh_per_second self) (grid self)
    (ant_position self) (ant_direction self).

Definition set_ant (self : GameOfLife) (p : Z * Z) (d : Z) : GameOfLife :=
  mkGameOfLife (display_width self) (display_height self)
    (infinite_mode self) (rules self) (offset self) (mode self)
    (generation self) (refresh_per_second self) (grid self)
    (Some p) (Some d).

(** *** [__init__] *)

(** One cell of the dict comprehension of the Life branch: the filter
    [if random.choice([0, 1]) == 1] is evaluated first, then, for a cell
    that passes, the key and the value [random.choice([0, 1])]. *)
Definition seed_cell (off : Z * Z) (x y : Z)
    (acc : gmap (Z * Z) Z * Random) : result (gmap (Z * Z) Z * Random) :=
  let '(g, r) := acc in
  '(keep, r1) ← random_choice [0; 1] r;
  if decide (keep = 1) then
    '(v, r2) ← random_choice [0; 1] r1;
    Ok (<[(x + off.1, y + off.2) := v]> g, r2)
  else Ok (g, r1).

Definition seed_grid (display_width display_height : Z) (off : Z * Z)
    (r : Random) : result (gmap (Z * Z) Z * Random) :=
  for_in (range display_width)
    (λ x, for_in (range display_height) (λ y, seed_cell off x y))
    (∅, r).

Definition __init__ (display_width display_height : Z)
    (infinite_mode : bool) (rules : NeighborhoodRules)
    (offset : option (Z * Z)) (mode : SimulationMode)
    (refresh_per_second : Z) (r : Random)
  : result (GameOfLife * Random) :=
  (* offset or (0, 0): a pair is never falsy *)
  let off := match offset with Some o => o | None => (0, 0) end in
  match mode with
  | LIFE =>
      '(g, r') ← seed_grid display_width display_height off r;
      Ok (mkGameOfLife display_width display_height infinite_mode rules
            off mode 0 refresh_per_second g None None, r')
  | ANTS =>
      px ← floordiv display_width 2;
      py ← floordiv display_height 2;
      Ok (mkGameOfLife display_width display_height infinite_mode rules
            off mode 0 refresh_per_second ∅
            (Some (px + off.1, py + off.2)) (Some 0), r)
  end.

(** *** Neighbour counting *)

(** The body shared by both counting loops: the value added to [count]
    for the neighbour [(nx, ny)]. *)
Definition neighbor_value (self : GameOfLife) (nx ny : Z) : result Z :=
  if infinite_mode self then
    Ok (dict_get (grid self) (nx, ny) 0)
  else
    mx ← mod_ (nx - (offset self).1) (display_width self);
    my ← mod_ (ny - (offset self).2) (display_height self);
    Ok (dict_get (grid self)
          (mx + (offset self).1, my + (offset self).2) 0).

Definition get_neighbors_van_neumann (self : GameOfLife) (x y : Z)
  : result Z :=
  for_in [(-1, 0); (1, 0); (0, -1); (0, 1)]
    (λ '(dx, dy) count,
       v ← neighbor_value self (x + dx) (y + dy);
       Ok (count + v))
    0.

Definition get_neighbors_moore (self : GameOfLife) (x y : Z) : result Z :=
  for_in [-1; 0; 1]
    (λ dx, for_in [-1; 0; 1]
       (λ dy count,
          if decide (dx = 0 ∧ dy = 0) then Ok count
          else
            v ← neighbor_value self (x + dx) (y + dy);
            Ok (count + v)))
    0.

Definition get_neighbors (self : GameOfLife) (x y : Z) : result Z :=
  if decide (rules self = VAN_NEUMANN) then
    get_neighbors_van_neumann self x y
  else get_neighbors_moore self x y.

(** *** The Life step *)

(** [set(self.grid.keys()) | {(x + dx, y + dy) for x, y in self.grid
    for dx in [-1, 0, 1] for dy in [-1, 0, 1]}] *)
Definition cells_to_check (self : GameOfLife) : gset (Z * Z) :=
  dom (grid self) ∪
  list_to_set
    ('(x, y) ← elements (dom (grid self));
     dx ← [-1; 0; 1];
     dy ← [-1; 0; 1];
     [(x + dx, y + dy)]).

Definition life_cell (self : GameOfLife) (c : Z * Z)
    (new_grid : gmap (Z * Z) Z) : result (gmap (Z * Z) Z) :=
  let '(x, y) := c in
  neighbors ← get_neighbors self x y;
  if decide (dict_get (grid self) (x, y) 0 = 1) then
    if decide (2 ≤ neighbors ≤ 3) then Ok (<[(x, y) := 1]> new_grid)
    else Ok new_grid
  else if decide (neighbors = 3) then Ok (<[(x, y) := 1]> new_grid)
  else Ok new_grid.

Definition _next_generation_life (self : GameOfLife) : result GameOfLife :=
  new_grid ← for_in (elements (cells_to_check self)) (life_cell self) ∅;
  let self := set_grid self new_grid in
  Ok (set_generation self (generation self + 1)).

(** *** The Ant step *)

Definition _next_generation_ant (self : GameOfLife) : result GameOfLife :=
  '(x, y) ← getattr (ant_position self);
  let current_color := dict_get (grid self) (x, y) 0 in
  g ← (if decide (current_color = 0) then Ok (<[(x, y) := 1]> (grid self))
       else dict_del (grid self) (x, y));
  let self := set_grid self g in
  d ← getattr (ant_direction self);
  d' ← (if decide (current_color = 0) then mod_ (d + 1) 4
        else mod_ (d - 1) 4);
  '(dx, dy) ← getitem [(0, -1); (1, 0); (0, 1); (-1, 0)] d';
  let self := set_ant self (x + dx, y + dy) d' in
  Ok (set_generation self (generation self + 1)).

Definition next_generation (self : GameOfLife) : result GameOfLife :=
  match mode self with
  | LIFE => _next_generation_life self
  | ANTS => _next_generation_ant self
  end.

(** *** Panning *)

Record KeyboardEvent : Type := mkKeyboardEvent { name : string }.

Definition handle_key_press (self : GameOfLife) (event : KeyboardEvent)
  : GameOfLife :=
  let key := name event in
  if decide (key ∈ ["w"; "up"]%string) then
    set_offset self ((offset self).1, (offset self).2 - 1)
  else if decide (key ∈ ["s"; "down"]%string) then
    set_offset self ((offset self).1, (offset self).2 + 1)
  else if decide (key ∈ ["a"; "left"]%string) then
    set_offset self ((offset self).1 - 1, (offset self).2)
  else if decide (key ∈ ["d"; "right"]%string) then
    set_offset self ((offset self).1 + 1, (offset self).2)
  else self.

End RichLife.

Import RichLife.

(** ** Reading the code: closed forms used by the statements *)

(** The coordinate the finite mode looks up for the raw coordinate
    [coord] on an axis of size [dim] whose window starts at [off]. *)
Definition torus (dim off coord : Z) : Z := (coord - off) `mod` dim + off.

(** The wrap as the specification writes it. *)
Definition spec_wrap (dim off coord : Z) : Z :=
  ((coord - off) `mod` dim + dim) `mod` dim + off.

(** The same formula read with a truncating remainder. *)
Definition spec_wrap_rem (dim off coord : Z) : Z :=
  ((coord - off) `rem` dim + dim) `rem` dim + off.

(** The neighbour offsets in the order the counting loops visit them. *)
Definition neighborhood (r : NeighborhoodRules) : list (Z * Z) :=
  match r with
  | MOORE =>
      [(-1, -1); (-1, 0); (-1, 1); (0, -1); (0, 1); (1, -1); (1, 0); (1, 1)]
  | VAN_NEUMANN => [(-1, 0); (1, 0); (0, -1); (0, 1)]
  end.

(** The coordinate whose entry is read for the neighbour [n]. *)
Definition seen (self : GameOfLife) (n : Z * Z) : Z * Z :=
  if infinite_mode self then n
  else (torus (display_width self) (offset self).1 n.1,
        torus (display_height self) (offset self).2 n.2).

Definition sum_Z (l : list Z) : Z := foldr Z.add 0 l.

Definition neighbor_sum (self : GameOfLife) (x y : Z) : Z :=
  sum_Z (map (λ d, dict_get (grid self) (seen self (x + d.1, y + d.2)) 0)
           (neighborhood (rules self))).

(** No [%] of the counting loops divides by zero. *)
Definition runs (self : GameOfLife) : Prop :=
  infinite_mode self = true ∨
  (display_width self ≠ 0 ∧ display_height self ≠ 0).

(** The test [self.grid.get((x, y), 0) == 1] of the Life step. *)
Definition is_alive (g : gmap (Z * Z) Z) (c : Z * Z) : Prop :=
  dict_get g c 0 = 1.

(** Survival and birth with [n] neighbours. *)
Definition life_rule (g : gmap (Z * Z) Z) (c : Z * Z) (n : Z) : Prop :=
  (is_alive g c ∧ 2 ≤ n ≤ 3) ∨ (¬ is_alive g c ∧ n = 3).

#[global] Instance is_alive_dec g c : Decision (is_alive g c).
Proof. unfold is_alive. apply _. Defined.

#[global] Instance life_rule_dec g c n : Decision (life_rule g c n).
Proof. unfold life_rule. apply _. Defined.

Definition keeps (self : GameOfLife) (c : Z * Z) : Prop :=
  life_rule (grid self) c (neighbor_sum self c.1 c.2).

#[global] Instance keeps_dec self c : Decision (keeps self c).
Proof. unfold keeps. apply _. Defined.

(** One iteration of the Life loop when no exception is raised. *)
Definition sift (self : GameOfLife) (acc : gmap (Z * Z) Z) (c : Z * Z)
  : gmap (Z * Z) Z :=
  if decide (keeps self c) then <[c := 1]> acc else acc.

(** The grid the Life step builds when no exception is raised. *)
Definition life_grid (self : GameOfLife) : gmap (Z * Z) Z :=
  foldl (sift self) ∅ (elements (cells_to_check self)).

(** The eight cells around [k]. *)
Definition moore_cells (k : Z * Z) : list (Z * Z) :=
  map (λ d, (k.1 + d.1, k.2 + d.2)) (neighborhood MOORE).

(** The direction vectors of the specification, by heading index. *)
Definition heading_vector (i : Z) : Z * Z :=
  if decide (i = 0) then (0, -1)
  else if decide (i = 1) then (1, 0)
  else if decide (i = 2) then (0, 1)
  else (-1, 0).


(** Every entry of the mapping is an alive cell. *)
Definition only_alive (g : gmap (Z * Z) Z) : Prop :=
  ∀ c v, g !! c = Some v → v = 1.

(** The cell under the ant after the flip, and the heading after the turn. *)
Definition flip_cell (g : gmap (Z * Z) Z) (p : Z * Z) : gmap (Z * Z) Z :=
  if decide (dict_get g p 0 = 0) then <[p := 1]> g else delete p g.

Definition turn (g : gmap (Z * Z) Z) (p : Z * Z) (d : Z) : Z :=
  if decide (dict_get g p 0 = 0) then (d + 1) `mod` 4 else (d - 1) `mod` 4.

(** The viewport window. *)
Definition in_window (self : GameOfLife) (c : Z * Z) : Prop :=
  (offset self).1 ≤ c.1 < (offset self).1 + display_width self ∧
  (offset self).2 ≤ c.2 < (offset self).2 + display_height self.

(** [n] presses of the same key. *)
Fixpoint pan (key : string) (n : nat) (self : GameOfLife) : GameOfLife :=
  match n with
  | O => self
  | S n' => handle_key_press (pan key n' self) (mkKeyboardEvent key)
  end.

Definition pan_keys : list string :=
  ["w"; "up"; "s"; "down"; "a"; "left"; "d"; "right"]%string.

(** *** Concrete engines *)

(** A Life engine at generation 0 and offset (0, 0) whose grid has been
    assigned, as the tests do after construction. *)
Definition life_engine (w h : Z) (inf : bool) (rl : NeighborhoodRules)
    (g : gmap (Z * Z) Z) : GameOfLife :=
  mkGameOfLife w h inf rl (0, 0) LIFE 0 10 g None None.

Definition cells (l : list (Z * Z)) : gmap (Z * Z) Z :=
  list_to_map ((λ c, (c, 1)) <$> l).

Definition full_3x3 : gmap (Z * Z) Z :=
  cells (x ← [0; 1; 2]; y ← [0; 1; 2]; [(x, y)]).

Definition vertical_blinker : gmap (Z * Z) Z := cells [(2, 1); (2, 2); (2, 3)].
Definition horizontal_blinker : gmap (Z * Z) Z :=
  cells [(1, 2); (2, 2); (3, 2)].

Definition edge_column : gmap (Z * Z) Z := cells [(0, 1); (0, 2); (0, 3)].

(** A random source whose first draw picks 1 and every later draw 0. *)
Definition one_then_zeros : Random :=
  mkRandom (λ i, match i with O => 1%nat | S _ => 0%nat end) 0.

(** ** The rest of the class: printing, rendering, repeated steps *)

(** What standard output receives is modelled as the list of the lines
    written; the text handed to [rprint] and the cells handed to
    [table.add_row] are modelled as they are built, the terminal library
    that consumes them is outside the model. *)

(** The glyph of [print_board_ascii] for the cell at column [x] and row
    [y] of the window: ["●" if self.grid.get(..., 0) else " "]. *)
Definition board_glyph (self : GameOfLife) (x y : Z) : string :=
  if decide (dict_get (grid self)
               (x + (offset self).1, y + (offset self).2) 0 = 0)
  then " " else "●".

(** [print_board_ascii]: one line per row of the window. *)
Definition print_board_ascii (self : GameOfLife) : list string :=
  (λ y, String.concat ""
          ((λ x, board_glyph self x y) <$> range (display_width self)))
    <$> range (display_height self).

(** [print_neighbors]: each count is followed by a space. *)
Definition print_neighbors (self : GameOfLife) : result (list string) :=
  for_in (range (display_height self))
    (λ y lines,
       line ← for_in (range (display_width self))
                (λ x line,
                   neighbors ← get_neighbors self
                                 (x + (offset self).1) (y + (offset self).2);
                   Ok (line +:+ pretty neighbors +:+ " "))
                "";
       Ok (lines ++ [line]))
    [].

(** The colour [print_neighbors_rich] gives to a cell. *)
Definition neighbor_color (cell_state neighbors : Z) : string :=
  if decide (cell_state = 1 ∧ (neighbors < 2 ∨ neighbors > 3)) then "red"
  else if decide (cell_state = 0 ∧ neighbors = 3) then "green"
  else "white".

(** [print_neighbors_rich]: the markup lines handed to [rprint]. *)
Definition print_neighbors_rich (self : GameOfLife) : result (list string) :=
  for_in (range (display_height self))
    (λ y lines,
       row ← for_in (range (display_width self))
               (λ x row,
                  neighbors ← get_neighbors self
                                (x + (offset self).1) (y + (offset self).2);
                  let cell_state :=
                    dict_get (grid self)
                      (x + (offset self).1, y + (offset self).2) 0 in
                  let color := neighbor_color cell_state neighbors in
                  Ok (row ++ ["[" +:+ color +:+ "]" +:+ pretty neighbors
                              +:+ "[/" +:+ color +:+ "]"]))
               [];
       Ok (lines ++ [String.concat " " row]))
    [].

(** The cell [run] puts in the table at column [x] and row [y]. *)
Definition table_cell (self : GameOfLife) (x y : Z) : result string :=
  let cell_x := x + (offset self).1 in
  let cell_y := y + (offset self).2 in
  match mode self with
  | LIFE =>
      Ok (if decide (dict_get (grid self) (cell_x, cell_y) 0 = 0)
          then " " else "●")
  | ANTS =>
      p ← getattr (ant_position self);
      if decide ((cell_x, cell_y) = p) then
        d ← getattr (ant_direction self);
        getitem ["▲"; "▶"; "▼"; "◀"]%string d
      else
        Ok (if decide (dict_get (grid self) (cell_x, cell_y) 0 = 0)
            then " " else "■")
  end.

(** The rows [run] adds to the table of one frame. *)
Definition table_rows (self : GameOfLife) : result (list (list string)) :=
  for_in (range (display_height self))
    (λ y rows,
       row ← for_in (range (display_width self))
               (λ x row, cell ← table_cell self x y; Ok (row ++ [cell]))
               [];
       Ok (rows ++ [row]))
    [].

(** [n] successive calls of [next_generation], as the loop of [run] and
    the tests make them. *)
Fixpoint advance (n : nat) (self : GameOfLife) : result GameOfLife :=
  match n with
  | O => Ok self
  | S n' => self' ← next_generation self; advance n' self'
  end.

(** The key presses of a list, in order. *)
Definition press_all (keys : list string) (self : GameOfLife) : GameOfLife :=
  foldl (λ s key, handle_key_press s (mkKeyboardEvent key)) self keys.

(** Every stored value is 0 or 1. *)
Definition binary (g : gmap (Z * Z) Z) : Prop :=
  ∀ c v, g !! c = Some v → v = 0 ∨ v = 1.

(** The grid without its entries of value 0. *)
Definition without_zeros (g : gmap (Z * Z) Z) : gmap (Z * Z) Z :=
  filter (λ kv, kv.2 ≠ 0) g.

(** All keys inside the rectangle [x0, x1] × [y0, y1]. *)
Definition within (g : gmap (Z * Z) Z) (x0 x1 y0 y1 : Z) : Prop :=
  ∀ c, c ∈ dom g → x0 ≤ c.1 ≤ x1 ∧ y0 ≤ c.2 ≤ y1.

(** How often a key of the list is one of the two keys of a direction. *)
Definition presses (names : list string) (keys : list string) : Z :=
  Z.of_nat (length (filter (λ key, key ∈ names) keys)).

(** The offset after one press of [key]. *)
Definition key_shift (key : string) (o : Z * Z) : Z * Z :=
  if decide (key ∈ ["w"; "up"]%string) then (o.1, o.2 - 1)
  else if decide (key ∈ ["s"; "down"]%string) then (o.1, o.2 + 1)
  else if decide (key ∈ ["a"; "left"]%string) then (o.1 - 1, o.2)
  else if decide (key ∈ ["d"; "right"]%string) then (o.1 + 1, o.2)
  else o.

#[global] Instance in_window_dec self c : Decision (in_window self c).
Proof. unfold in_window. apply _. Defined.

(** The entries of the grid inside the window. *)
Definition inside_window (self : GameOfLife) : gmap (Z * Z) Z :=
  filter (λ kv, in_window self kv.1) (grid self).

(** The cell [c] moved by [(a, b)]. *)
Definition shift_cell (a b : Z) (c : Z * Z) : Z * Z := (c.1 + a, c.2 + b).

#[global] Instance shift_cell_inj a b : Inj (=) (=) (shift_cell a b).
Proof.
  intros [x1 y1] [x2 y2]. unfold shift_cell. cbn.
  intros [= Hx Hy]. f_equal; lia.
Qed.

(** The engine with its grid, its window and its ant moved by [(a, b)]. *)
Definition translate (a b : Z) (self : GameOfLife) : GameOfLife :=
  mkGameOfLife (display_width self) (display_height self)
    (infinite_mode self) (rules self) (shift_cell a b (offset self))
    (mode self) (generation self) (refresh_per_second self)
    (kmap (shift_cell a b) (grid self))
    (shift_cell a b <$> ant_position self) (ant_direction self).

(** ** Neighbour counting *)

Section Counting.

Variable self : GameOfLife.

Lemma neighbor_value_seen nx ny :
  runs self →
  neighbor_value self nx ny = Ok (dict_get (grid self) (seen self (nx, ny)) 0).
Proof.
  unfold runs, neighbor_value, seen, mod_, torus.
  intros [Hinf | [Hw Hh]].
  - by rewrite Hinf.
  - destruct (infinite_mode self); [done |].
    rewrite !decide_False by done. done.
Qed.

Lemma neighbor_value_zero_dim nx ny :
  infinite_mode self = false →
  display_width self = 0 ∨ display_height self = 0 →
  neighbor_value self nx ny = Raise ZeroDivisionError.
Proof.
  unfold neighbor_value, mod_. intros -> [-> | ->]; cbn.
  - done.
  - by destruct (decide (display_width self = 0)).
Qed.

Lemma get_neighbors_sum x y :
  runs self → get_neighbors self x y = Ok (neighbor_sum self x y).
Proof.
  intros Hruns.
  unfold get_neighbors, neighbor_sum,
    get_neighbors_van_neumann, get_neighbors_moore.
  destruct (rules self); cbn -[Z.add];
    repeat (rewrite neighbor_value_seen by done);
    repeat (case_decide; try done; try (exfalso; lia));
    cbn -[Z.add]; f_equal; unfold sum_Z; cbn -[Z.add]; lia.
Qed.

Lemma get_neighbors_zero_dim x y :
  infinite_mode self = false →
  display_width self = 0 ∨ display_height self = 0 →
  get_neighbors self x y = Raise ZeroDivisionError.
Proof.
  intros Hfin Hz.
  unfold get_neighbors, get_neighbors_van_neumann, get_neighbors_moore.
  destruct (rules self); cbn;
    repeat (case_decide; try done; try (exfalso; lia));
    repeat (rewrite neighbor_value_zero_dim by done); reflexivity.
Qed.

End Counting.

(** Floor-mod arithmetic of the wrap. *)

Lemma torus_window dim off c :
  0 < dim → 0 ≤ (c - off) `mod` dim < dim ∧ off ≤ torus dim off c < off + dim.
Proof.
  intros Hd. unfold torus.
  pose proof (Z.mod_pos_bound (c - off) dim Hd). lia.
Qed.

Lemma torus_spec_wrap dim off c : 0 < dim → torus dim off c = spec_wrap dim off c.
Proof.
  intros Hd. unfold torus, spec_wrap. f_equal.
  rewrite <- (Z.mul_1_l dim) at 3.
  rewrite Z.mod_add by lia. by rewrite Z.mod_mod by lia.
Qed.

Lemma torus_spec_wrap_rem dim off c :
  0 < dim → torus dim off c = spec_wrap_rem dim off c.
Proof.
  intros Hd. unfold torus, spec_wrap_rem. f_equal.
  set (a := c - off).
  pose proof (Z.rem_bound_abs a dim ltac:(lia)) as Hb.
  assert (Hlo : 0 ≤ a `rem` dim + dim) by lia.
  rewrite (Z.rem_mod_nonneg (a `rem` dim + dim) dim) by lia.
  replace (a `rem` dim + dim) with (a + (1 - a `quot` dim) * dim)
    by (pose proof (Z.quot_rem' a dim); lia).
  by rewrite Z.mod_add by lia.
Qed.

(** ** The Life step *)

Section LifeStep.

Variable self : GameOfLife.

Lemma life_cell_sift c acc :
  runs self → life_cell self c acc = Ok (sift self acc c).
Proof.
  intros Hruns. destruct c as [x y]. unfold life_cell.
  rewrite get_neighbors_sum by done.
  unfold sift, keeps, life_rule, is_alive. cbn.
  repeat case_decide; try done; exfalso; tauto.
Qed.

Lemma for_in_life_cell l acc :
  runs self → for_in l (life_cell self) acc = Ok (foldl (sift self) acc l).
Proof.
  intros Hruns. revert acc.
  induction l as [| c l IH]; intros acc; cbn; [done |].
  rewrite life_cell_sift by done. cbn. apply IH.
Qed.

Lemma foldl_sift_lookup l acc c :
  foldl (sift self) acc l !! c =
    if decide (c ∈ l ∧ keeps self c) then Some 1 else acc !! c.
Proof.
  revert acc. induction l as [| a l IH]; intros acc; cbn.
  - rewrite decide_False; [done |]. intros [Hin _]. by apply elem_of_nil in Hin.
  - rewrite IH.
    destruct (decide (c ∈ l ∧ keeps self c)) as [[Hin Hk] | Hn].
    + rewrite decide_True; [done |]. split; [by right | done].
    + destruct (decide (c = a)) as [-> | Hne]; unfold sift.
      * destruct (decide (keeps self a)) as [Hk | Hk].
        -- rewrite lookup_insert_eq, decide_True; [done |].
           split; [by left | done].
        -- rewrite decide_False; [done |]. by intros [_ ?].
      * rewrite (decide_False (P := c ∈ a :: l ∧ _)).
        -- destruct (decide (keeps self a)); [| done].
           by rewrite lookup_insert_ne.
        -- intros [Hin Hk]. apply elem_of_cons in Hin as [? | ?]; [done |].
           by apply Hn.
Qed.

Lemma life_grid_lookup c :
  life_grid self !! c =
    if decide (c ∈ cells_to_check self ∧ keeps self c) then Some 1 else None.
Proof.
  unfold life_grid. rewrite foldl_sift_lookup, lookup_empty.
  destruct (decide (c ∈ cells_to_check self ∧ keeps self c)) as [[Hc Hk] | Hn].
  - rewrite decide_True; [done |]. split; [| done]. by apply elem_of_elements.
  - rewrite decide_False; [done |]. intros [Hc Hk]. apply Hn.
    split; [| done]. by apply elem_of_elements in Hc.
Qed.

Lemma life_step_grid :
  mode self = LIFE → runs self →
  next_generation self =
    Ok (set_generation (set_grid self (life_grid self))
          (generation self + 1)).
Proof.
  intros Hmode Hruns. unfold next_generation, _next_generation_life.
  rewrite Hmode, for_in_life_cell by done. reflexivity.
Qed.

Lemma life_grid_only_alive : only_alive (life_grid self).
Proof.
  intros c v. rewrite life_grid_lookup. case_decide; congruence.
Qed.

(** A Life step on a finite engine with a zero dimension and a non-empty
    grid stops at the first candidate. *)
Lemma life_step_zero_dim :
  mode self = LIFE → infinite_mode self = false →
  display_width self = 0 ∨ display_height self = 0 →
  grid self ≠ ∅ →
  next_generation self = Raise ZeroDivisionError.
Proof.
  intros Hmode Hfin Hz Hne. unfold next_generation, _next_generation_life.
  rewrite Hmode.
  destruct (elements (cells_to_check self)) as [| [x y] l] eqn:Hel.
  - exfalso. apply Hne. apply elements_empty_inv in Hel.
    apply dom_empty_inv_L. unfold cells_to_check in Hel.
    apply leibniz_equiv in Hel. apply empty_union_L in Hel. tauto.
  - cbn. by rewrite get_neighbors_zero_dim.
Qed.

Lemma cells_to_check_empty :
  grid self = ∅ → elements (cells_to_check self) = [].
Proof. intros He. unfold cells_to_check. rewrite He. reflexivity. Qed.

Lemma life_step_empty :
  mode self = LIFE → grid self = ∅ →
  next_generation self =
    Ok (set_generation (set_grid self ∅) (generation self + 1)).
Proof.
  intros Hmode He. unfold next_generation, _next_generation_life.
  by rewrite Hmode, cells_to_check_empty.
Qed.

Lemma cells_to_check_spec c :
  c ∈ cells_to_check self ↔
  c ∈ dom (grid self) ∨ ∃ k, k ∈ dom (grid self) ∧ c ∈ moore_cells k.
Proof.
  unfold cells_to_check.
  rewrite elem_of_union, elem_of_list_to_set, list_elem_of_bind.
  split.
  - intros [Hd | [[kx ky] [Hk Hin]]]; [by left |].
    apply elem_of_elements in Hin. cbn in Hk.
    rewrite !elem_of_cons in Hk.
    destruct Hk as [-> | [-> | [-> | [-> | [-> | [-> | [-> | [-> | [-> | Hk]]]]]]]]];
      [| | | | left; by rewrite !Z.add_0_r | | | | | by apply elem_of_nil in Hk];
      right; exists (kx, ky); (split; [done |]);
      unfold moore_cells; cbn; rewrite !elem_of_cons; tauto.
  - intros [Hd | [[kx ky] [Hin Hk]]]; [by left |].
    right. exists (kx, ky). split; [| by apply elem_of_elements].
    unfold moore_cells in Hk. cbn in Hk |- *.
    rewrite !elem_of_cons in Hk. rewrite !elem_of_cons. tauto.
Qed.

End LifeStep.

(** ** The Ant step *)

Lemma getitem_heading i :
  0 ≤ i < 4 →
  getitem [(0, -1); (1, 0); (0, 1); (-1, 0)] i = Ok (heading_vector i).
Proof.
  intros Hi.
  assert (i = 0 ∨ i = 1 ∨ i = 2 ∨ i = 3) as [-> | [-> | [-> | ->]]] by lia;
    reflexivity.
Qed.

Lemma turn_range g p d : 0 ≤ turn g p d < 4.
Proof. unfold turn. case_decide; apply Z.mod_pos_bound; lia. Qed.

Lemma ant_step_run self p d :
  mode self = ANTS →
  ant_position self = Some p →
  ant_direction self = Some d →
  next_generation self =
    Ok (set_generation
          (set_ant (set_grid self (flip_cell (grid self) p))
             (p.1 + (heading_vector (turn (grid self) p d)).1,
              p.2 + (heading_vector (turn (grid self) p d)).2)
             (turn (grid self) p d))
          (generation self + 1)).
Proof.
  intros Hmode Hpos Hdir.
  pose proof (turn_range (grid self) p d) as Hturn.
  unfold next_generation, _next_generation_ant.
  rewrite Hmode, Hpos. destruct p as [x y]. cbn.
  unfold flip_cell, turn in *.
  destruct (decide (dict_get (grid self) (x, y) 0 = 0)) as [Hdead | Halive].
  - cbn. rewrite Hdir. cbn. unfold mod_. rewrite decide_False by lia. cbn.
    rewrite getitem_heading by done. cbn.
    by destruct (heading_vector ((d + 1) `mod` 4)).
  - unfold dict_del. unfold dict_get in Halive.
    destruct (grid self !! (x, y)) as [v |] eqn:Hv; [| done].
    cbn. rewrite Hdir. cbn. unfold mod_. rewrite decide_False by lia. cbn.
    rewrite getitem_heading by done. cbn.
    by destruct (heading_vector ((d - 1) `mod` 4)).
Qed.

Lemma flip_cell_only_alive g p : only_alive g → only_alive (flip_cell g p).
Proof.
  intros Hg c v. unfold flip_cell. case_decide.
  - rewrite lookup_insert. case_decide; [congruence | apply Hg].
  - rewrite lookup_delete. case_decide; [done | apply Hg].
Qed.

(** ** Construction *)

Lemma for_in_skip {A S} (l : list A) (body : A → S → result S) (s : S) :
  (∀ x s', body x s' = Ok s') → for_in l body s = Ok s.
Proof.
  intros Hbody. induction l as [| a l IH]; cbn; [done |].
  by rewrite Hbody.
Qed.

Lemma range_nonpositive n : n ≤ 0 → range n = [].
Proof. intros Hn. unfold range. by replace (Z.to_nat n) with 0%nat by lia. Qed.

Lemma seed_grid_empty_window w h off r :
  w ≤ 0 ∨ h ≤ 0 → seed_grid w h off r = Ok (∅, r).
Proof.
  unfold seed_grid. intros [Hw | Hh].
  - by rewrite range_nonpositive.
  - rewrite (range_nonpositive h) by done. by apply for_in_skip.
Qed.

Lemma init_ants w h inf rl off rps r :
  __init__ w h inf rl off ANTS rps r =
    let o := match off with Some o => o | None => (0, 0) end in
    Ok (mkGameOfLife w h inf rl o ANTS 0 rps ∅
          (Some (w `div` 2 + o.1, h `div` 2 + o.2)) (Some 0), r).
Proof. reflexivity. Qed.

(** ** Panning *)

Lemma pan_right n self :
  pan "right" n self =
    set_offset self ((offset self).1 + Z.of_nat n, (offset self).2).
Proof.
  induction n as [| n IH].
  - destruct self as [? ? ? ? [ox oy] ? ? ? ? ? ?]. cbn.
    unfold set_offset. cbn. by rewrite Z.add_0_r.
  - cbn [pan]. rewrite IH.
    unfold handle_key_press, set_offset. cbn.
    f_equal. f_equal. lia.
Qed.

Lemma pan_left n self :
  pan "left" n self =
    set_offset self ((offset self).1 - Z.of_nat n, (offset self).2).
Proof.
  induction n as [| n IH].
  - destruct self as [? ? ? ? [ox oy] ? ? ? ? ? ?]. cbn.
    unfold set_offset. cbn. by rewrite Z.sub_0_r.
  - cbn [pan]. rewrite IH.
    unfold handle_key_press, set_offset. cbn.
    f_equal. f_equal. lia.
Qed.

(** ** The properties of the specification *)

(** *** Grid invariant and seeding *)

(** C1. The specification states that every coordinate present in the grid
    is alive (value 1) after every construction, the Life constructor
    flipping one coin per cell and storing alive cells only. The
    constructor flips a second coin for the value of each cell it keeps:
    for the 1×1 window and a random source that draws 1 and then 0, the
    engine is built with the entry [(0, 0) ↦ 0], two draws are consumed
    for the single cell, and the grid is not made of alive cells only. *)
Theorem init_life_stores_dead_cell :
  ∃ self r,
    __init__ 1 1 true MOORE None LIFE 10 one_then_zeros = Ok (self, r) ∧
    grid self !! (0, 0) = Some 0 ∧
    cursor r = 2%nat ∧
    ¬ only_alive (grid self).
Proof.
  exists (mkGameOfLife 1 1 true MOORE (0, 0) LIFE 0 10 {[ (0, 0) := 0 ]}
            None None),
         (mkRandom (draws one_then_zeros) 2).
  split; [vm_compute; reflexivity |].
  split; [vm_compute; reflexivity |].
  split; [reflexivity |].
  intros Hinv. specialize (Hinv (0, 0) 0). cbn in Hinv.
  assert (0 = 1) by (apply Hinv; vm_compute; reflexivity). lia.
Qed.

(** Both steps keep the invariant once it holds, and a Life step
    establishes it from any grid. *)
Lemma step_only_alive self self' :
  next_generation self = Ok self' →
  mode self = LIFE ∨ only_alive (grid self) →
  only_alive (grid self').
Proof.
  intros Hstep Hcase. destruct (mode self) eqn:Hmode.
  - destruct (decide (infinite_mode self = true)) as [Hinf | Hfin].
    + rewrite life_step_grid in Hstep by (done || by left).
      injection Hstep as <-. apply life_grid_only_alive.
    + apply not_true_is_false in Hfin.
      destruct (decide (display_width self = 0 ∨ display_height self = 0))
        as [Hz | Hnz].
      * destruct (decide (grid self = ∅)) as [He | Hne].
        -- rewrite life_step_empty in Hstep by done.
           injection Hstep as <-. intros c v. cbn. by rewrite lookup_empty.
        -- by rewrite life_step_zero_dim in Hstep.
      * rewrite life_step_grid in Hstep by (done || right; lia).
        injection Hstep as <-. apply life_grid_only_alive.
  - destruct Hcase as [? | Hinv]; [done |].
    unfold next_generation in Hstep. rewrite Hmode in Hstep.
    destruct (ant_position self) as [p |] eqn:Hp;
      [| by unfold _next_generation_ant in Hstep; rewrite Hp in Hstep].
    destruct (ant_direction self) as [d |] eqn:Hd.
    + pose proof (ant_step_run self p d Hmode Hp Hd) as Hrun.
      unfold next_generation in Hrun. rewrite Hmode in Hrun.
      rewrite Hrun in Hstep. injection Hstep as <-. cbn.
      by apply flip_cell_only_alive.
    + unfold _next_generation_ant in Hstep. rewrite Hp in Hstep.
      destruct p as [x y]. cbn in Hstep.
      destruct (if decide (dict_get (grid self) (x, y) 0 = 0)
                then Ok (<[(x, y) := 1]> (grid self))
                else dict_del (grid self) (x, y));
        cbn in Hstep; [by rewrite Hd in Hstep | done].
Qed.

(** *** Construction with an empty window *)

(** C2, as the specification states it, fails: construction with zero
    width and height returns an engine, it raises nothing. *)
Lemma init_zero_dims_no_error :
  ¬ (∀ w h inf rl off m rps r,
       w ≤ 0 ∨ h ≤ 0 → ∃ e, __init__ w h inf rl off m rps r = Raise e).
Proof.
  intros Hfail.
  destruct (Hfail 0 0 false MOORE None LIFE 10 one_then_zeros) as [e He];
    [lia |].
  vm_compute in He. discriminate He.
Qed.

(** C2 (amended). Construction with a non-positive width or height raises
    no error: it returns an engine at generation 0 with the given
    dimensions and an empty grid, and consumes no random draw. *)
Theorem init_nonpositive_dims_builds_empty_engine
    w h inf rl off m rps r :
  w ≤ 0 ∨ h ≤ 0 →
  ∃ self,
    __init__ w h inf rl off m rps r = Ok (self, r) ∧
    grid self = ∅ ∧
    generation self = 0 ∧
    display_width self = w ∧ display_height self = h ∧ mode self = m.
Proof.
  intros Hdims. destruct m.
  - unfold __init__. rewrite seed_grid_empty_window by done. cbn.
    eexists. split; [reflexivity |]. by cbn.
  - rewrite init_ants. cbn. eexists. split; [reflexivity |]. by cbn.
Qed.

Lemma init_nonpositive_dims_builds_empty_engine_witness :
  (0 ≤ 0 ∨ -3 ≤ 0) ∧
  ∃ self,
    __init__ 0 (-3) false MOORE None LIFE 10 one_then_zeros
      = Ok (self, one_then_zeros) ∧
    grid self = ∅ ∧
    generation self = 0 ∧
    display_width self = 0 ∧ display_height self = -3 ∧ mode self = LIFE.
Proof.
  split; [left; lia |].
  apply (init_nonpositive_dims_builds_empty_engine
           0 (-3) false MOORE None LIFE 10 one_then_zeros).
  left; lia.
Defined.

(** *** The Life rule *)



(** *** Neighbour counting on the torus and on the plane *)

(** C4. In finite mode with positive dimensions [get_neighbors] adds, over
    the offsets of the configured neighbourhood, the entry found at the
    neighbour coordinate wrapped per axis by
    [(coord - offset) mod dimension + offset]; the residue lies in
    [0, dimension) whatever the sign of [coord - offset], and the wrap
    agrees with the double-modulus formula of the specification, read with
    floor-mod or with a truncating remainder. In infinite mode the raw
    neighbour coordinate is looked up. On the full 3×3 finite grid every
    cell counts 8 neighbours under the Moore ruleset; in infinite mode the
    corner (0, 0) counts 3. *)
Theorem count_neighbors_boundary_modes :
  (∀ self x y,
     infinite_mode self = false →
     0 < display_width self → 0 < display_height self →
     get_neighbors self x y =
       Ok (sum_Z (map (λ d, dict_get (grid self)
                         (torus (display_width self) (offset self).1 (x + d.1),
                          torus (display_height self) (offset self).2 (y + d.2))
                         0)
                    (neighborhood (rules self))))) ∧
  (∀ dim off coord,
     0 < dim →
     0 ≤ (coord - off) `mod` dim < dim ∧
     torus dim off coord = spec_wrap dim off coord ∧
     torus dim off coord = spec_wrap_rem dim off coord) ∧
  (∀ self x y,
     infinite_mode self = true →
     get_neighbors self x y =
       Ok (sum_Z (map (λ d, dict_get (grid self) (x + d.1, y + d.2) 0)
                    (neighborhood (rules self))))) ∧
  (∀ x y, get_neighbors (life_engine 3 3 false MOORE full_3x3) x y = Ok 8) ∧
  get_neighbors (life_engine 3 3 true MOORE full_3x3) 0 0 = Ok 3.
Proof.
  split; [| split; [| split; [| split]]].
  - intros self x y Hfin Hw Hh.
    rewrite get_neighbors_sum by (right; lia).
    unfold neighbor_sum, seen. by rewrite Hfin.
  - intros dim off coord Hd. split; [apply torus_window; lia |].
    split; [by apply torus_spec_wrap | by apply torus_spec_wrap_rem].
  - intros self x y Hinf.
    rewrite get_neighbors_sum by (by left).
    unfold neighbor_sum, seen. by rewrite Hinf.
  - intros x y.
    rewrite get_neighbors_sum by (right; cbn; lia).
    assert (Hcell : ∀ a b,
              dict_get full_3x3 (torus 3 0 a, torus 3 0 b) 0 = 1).
    { intros a b.
      pose proof (torus_window 3 0 a ltac:(lia)) as [_ Ha].
      pose proof (torus_window 3 0 b ltac:(lia)) as [_ Hb].
      assert (torus 3 0 a = 0 ∨ torus 3 0 a = 1 ∨ torus 3 0 a = 2)
        as [-> | [-> | ->]] by lia;
        assert (torus 3 0 b = 0 ∨ torus 3 0 b = 1 ∨ torus 3 0 b = 2)
          as [-> | [-> | ->]] by lia;
        reflexivity. }
    unfold neighbor_sum, seen.
    cbn [life_engine infinite_mode display_width display_height offset
           rules grid neighborhood map fst snd].
    rewrite !Hcell. reflexivity.
  - vm_compute. reflexivity.
Qed.

Lemma count_neighbors_boundary_modes_witness :
  let self := mkGameOfLife 3 3 false MOORE (10, -7) LIFE 0 10
                (cells [(10, -7); (12, -5)]) None None in
  infinite_mode self = false ∧
  0 < display_width self ∧ 0 < display_height self ∧
  get_neighbors self 10 (-7) =
    Ok (sum_Z (map (λ d, dict_get (grid self)
                      (torus (display_width self) (offset self).1 (10 + d.1),
                       torus (display_height self) (offset self).2 (-7 + d.2))
                      0)
                 (neighborhood (rules self)))).
Proof.
  intros self. split; [reflexivity |]. split; [cbn; lia |].
  split; [cbn; lia |].
  apply (proj1 count_neighbors_boundary_modes self 10 (-7));
    [reflexivity | cbn; lia | cbn; lia].
Defined.

(** *** The candidate set *)



(** *** Langton's ant *)

(** C6. One Ant step flips the cell under the ant (an absent or zero entry
    becomes 1, any other entry is removed), turns right, [(d + 1) mod 4],
    when the cell was dead before the flip and left, [(d - 1) mod 4],
    when it was alive, the new heading lying in 0..3, moves the ant one
    cell along the vector of the new heading (0: (0,-1), 1: (1,0),
    2: (0,1), 3: (-1,0)) and adds one to the generation; every other
    attribute and every other cell is unchanged. *)
Theorem ant_step_flips_turns_moves self p d :
  mode self = ANTS →
  ant_position self = Some p →
  ant_direction self = Some d →
  ∃ g' d',
    next_generation self =
      Ok (mkGameOfLife (display_width self) (display_height self)
            (infinite_mode self) (rules self) (offset self) (mode self)
            (generation self + 1) (refresh_per_second self) g'
            (Some (p.1 + (heading_vector d').1, p.2 + (heading_vector d').2))
            (Some d')) ∧
    (dict_get (grid self) p 0 = 0 →
       g' = <[p := 1]> (grid self) ∧ d' = (d + 1) `mod` 4) ∧
    (dict_get (grid self) p 0 ≠ 0 →
       g' = delete p (grid self) ∧ d' = (d - 1) `mod` 4) ∧
    0 ≤ d' < 4 ∧
    heading_vector 0 = (0, -1) ∧ heading_vector 1 = (1, 0) ∧
    heading_vector 2 = (0, 1) ∧ heading_vector 3 = (-1, 0) ∧
    (∀ c, c ≠ p → g' !! c = grid self !! c).
Proof.
  intros Hmode Hpos Hdir.
  exists (flip_cell (grid self) p), (turn (grid self) p d).
  split; [by rewrite (ant_step_run self p d) |].
  unfold flip_cell, turn.
  split; [intros Hdead; by rewrite !decide_True |].
  split; [intros Halive; by rewrite !decide_False |].
  split; [apply turn_range |].
  repeat (split; [reflexivity |]).
  intros c Hc. case_decide.
  - by rewrite lookup_insert_ne.
  - by rewrite lookup_delete_ne.
Qed.

Lemma ant_step_flips_turns_moves_witness :
  let self := mkGameOfLife 5 5 true MOORE (0, 0) ANTS 7 10
                (cells [(2, 2)]) (Some (2, 2)) (Some 0) in
  mode self = ANTS ∧
  ant_position self = Some (2, 2) ∧
  ant_direction self = Some 0 ∧
  ∃ g' d',
    next_generation self =
      Ok (mkGameOfLife 5 5 true MOORE (0, 0) ANTS 8 10 g'
            (Some (2 + (heading_vector d').1, 2 + (heading_vector d').2))
            (Some d')) ∧
    (dict_get (grid self) (2, 2) 0 ≠ 0 →
       g' = delete (2, 2) (grid self) ∧ d' = (0 - 1) `mod` 4) ∧
    0 ≤ d' < 4.
Proof.
  intros self. split; [reflexivity |]. split; [reflexivity |].
  split; [reflexivity |].
  destruct (ant_step_flips_turns_moves self (2, 2) 0 eq_refl eq_refl eq_refl)
    as (g' & d' & Hstep & _ & Halive & Hd & _).
  exists g', d'. split; [exact Hstep |]. split; [exact Halive | exact Hd].
Defined.

(** *** The blinker *)

(** C7. On the 5×5 finite engine at generation 0 whose grid is the vertical
    blinker {(2,1), (2,2), (2,3)}, one step gives the engine at
    generation 1 whose grid is exactly the horizontal blinker
    {(1,2), (2,2), (3,2)}. *)
Theorem blinker_turns_horizontal :
  next_generation (life_engine 5 5 false MOORE vertical_blinker) =
    Ok (mkGameOfLife 5 5 false MOORE (0, 0) LIFE 1 10 horizontal_blinker
          None None) ∧
  dom vertical_blinker = {[ (2, 1); (2, 2); (2, 3) ]} ∧
  dom horizontal_blinker = {[ (1, 2); (2, 2); (3, 2) ]} ∧
  only_alive horizontal_blinker.
Proof.
  split; [vm_compute; reflexivity |].
  split; [vm_compute; reflexivity |].
  split; [vm_compute; reflexivity |].
  intros c v. unfold horizontal_blinker, cells. cbn.
  rewrite !lookup_insert, lookup_empty.
  repeat case_decide; congruence.
Qed.

(** *** The first step of the ant *)

(** C8. Ant-mode construction with positive dimensions and offset
    (ox, oy) gives an empty grid, the ant at
    (width/2 + ox, height/2 + oy), the floor division agreeing with the
    truncating one, and heading 0. One step from there stores the start
    cell as alive, turns the ant to heading 1 (East) and moves it one
    cell east: the start stays in the grid and the ant is elsewhere. *)
Theorem ant_construction_and_first_step w h ox oy inf rl rps r :
  0 < w → 0 < h →
  ∃ self self',
    __init__ w h inf rl (Some (ox, oy)) ANTS rps r = Ok (self, r) ∧
    grid self = ∅ ∧
    ant_position self = Some (w `div` 2 + ox, h `div` 2 + oy) ∧
    w `div` 2 = w `quot` 2 ∧ h `div` 2 = h `quot` 2 ∧
    ant_direction self = Some 0 ∧
    generation self = 0 ∧
    next_generation self = Ok self' ∧
    grid self' = {[ (w `div` 2 + ox, h `div` 2 + oy) := 1 ]} ∧
    ant_direction self' = Some 1 ∧
    ant_position self' = Some (w `div` 2 + ox + 1, h `div` 2 + oy) ∧
    (w `div` 2 + ox, h `div` 2 + oy) ∈ dom (grid self') ∧
    ant_position self' ≠ ant_position self ∧
    generation self' = 1.
Proof.
  intros Hw Hh. rewrite init_ants. cbn zeta. cbn [fst snd].
  set (start := (w `div` 2 + ox, h `div` 2 + oy)).
  set (self := mkGameOfLife w h inf rl (ox, oy) ANTS 0 rps ∅
                 (Some start) (Some 0)).
  pose proof (ant_step_run self start 0 eq_refl eq_refl eq_refl) as Hstep.
  assert (Hflip : flip_cell (grid self) start = {[ start := 1 ]}).
  { unfold flip_cell. cbn. unfold dict_get. rewrite lookup_empty.
    by rewrite decide_True. }
  assert (Hturn : turn (grid self) start 0 = 1).
  { unfold turn. cbn. unfold dict_get. rewrite lookup_empty.
    by rewrite decide_True. }
  rewrite Hflip, Hturn in Hstep.
  assert (Hin : start ∈ dom ({[ start := 1 ]} : gmap (Z * Z) Z))
    by (rewrite dom_singleton_L; by apply elem_of_singleton).
  eexists self, _. split; [reflexivity |].
  split; [reflexivity |]. split; [reflexivity |].
  split; [symmetry; apply Z.quot_div_nonneg; lia |].
  split; [symmetry; apply Z.quot_div_nonneg; lia |].
  split; [reflexivity |]. split; [reflexivity |].
  split; [exact Hstep |]. cbn.
  split; [reflexivity |]. split; [reflexivity |].
  split; [by rewrite Z.add_0_r |].
  split; [exact Hin |].
  split; [| reflexivity].
  intros Heq. injection Heq as Hx Hy. lia.
Qed.

Lemma ant_construction_and_first_step_witness :
  0 < 5 ∧ 0 < 5 ∧
  ∃ self self',
    __init__ 5 5 true MOORE (Some (0, 0)) ANTS 10 one_then_zeros
      = Ok (self, one_then_zeros) ∧
    ant_position self = Some (2, 2) ∧
    next_generation self = Ok self' ∧
    (2, 2) ∈ dom (grid self') ∧
    ant_position self' ≠ ant_position self.
Proof.
  split; [lia |]. split; [lia |].
  destruct (ant_construction_and_first_step 5 5 0 0 true MOORE 10
              one_then_zeros ltac:(lia) ltac:(lia))
    as (self & self' & Hinit & _ & Hpos & _ & _ & _ & _ & Hstep & _ & _ & _
        & Hin & Hne & _).
  exists self, self'. split; [exact Hinit |]. split; [exact Hpos |].
  split; [exact Hstep |]. split; [exact Hin | exact Hne].
Defined.

(** *** Finite mode does not confine the cells *)

(** C9. In finite mode the keys a Life step writes are raw candidate
    coordinates: from the vertical triple {(0,1), (0,2), (0,3)}, which
    lies inside the 5×5 window, one step gives exactly
    {(-1,2), (0,2), (1,2)}, whose cell (-1, 2) is outside the window. *)
Theorem finite_life_step_leaves_window :
  let self := life_engine 5 5 false MOORE edge_column in
  (∀ c, c ∈ dom (grid self) → in_window self c) ∧
  ∃ self',
    next_generation self = Ok self' ∧
    grid self' = cells [(-1, 2); (0, 2); (1, 2)] ∧
    grid self' !! (-1, 2) = Some 1 ∧
    ¬ in_window self (-1, 2).
Proof.
  intros self. split.
  - intros c Hc.
    assert (Hdom : dom (grid self) = {[ (0, 1); (0, 2); (0, 3) ]})
      by (vm_compute; reflexivity).
    rewrite Hdom in Hc. unfold in_window. cbn.
    apply elem_of_union in Hc as [Hc | Hc];
      [apply elem_of_union in Hc as [Hc | Hc] |];
      apply elem_of_singleton in Hc; subst c; cbn; lia.
  - exists (mkGameOfLife 5 5 false MOORE (0, 0) LIFE 1 10
              (cells [(-1, 2); (0, 2); (1, 2)]) None None).
    split; [vm_compute; reflexivity |].
    split; [reflexivity |].
    split; [vm_compute; reflexivity |].
    unfold in_window. cbn. lia.
Qed.

(** *** Panning *)

(** C10. A pan key moves the offset by exactly one cell on one axis (up:
    y - 1, down: y + 1, left: x - 1, right: x + 1) and changes nothing
    else of the engine; any other key changes nothing at all. Panning
    right [n] times and then left [n] times gives back the engine
    unchanged, offset, grid and generation included. *)
Theorem pan_moves_offset_only self :
  (∀ key, key ∈ pan_keys →
     ∃ dx dy,
       handle_key_press self (mkKeyboardEvent key) =
         set_offset self ((offset self).1 + dx, (offset self).2 + dy) ∧
       Z.abs dx + Z.abs dy = 1 ∧
       (key ∈ ["w"; "up"]%string → dx = 0 ∧ dy = -1) ∧
       (key ∈ ["s"; "down"]%string → dx = 0 ∧ dy = 1) ∧
       (key ∈ ["a"; "left"]%string → dx = -1 ∧ dy = 0) ∧
       (key ∈ ["d"; "right"]%string → dx = 1 ∧ dy = 0)) ∧
  (∀ o, grid (set_offset self o) = grid self ∧
        generation (set_offset self o) = generation self ∧
        ant_position (set_offset self o) = ant_position self ∧
        ant_direction (set_offset self o) = ant_direction self ∧
        display_width (set_offset self o) = display_width self ∧
        display_height (set_offset self o) = display_height self ∧
        infinite_mode (set_offset self o) = infinite_mode self ∧
        rules (set_offset self o) = rules self ∧
        mode (set_offset self o) = mode self ∧
        offset (set_offset self o) = o) ∧
  (∀ key, key ∉ pan_keys →
     handle_key_press self (mkKeyboardEvent key) = self) ∧
  (∀ n, pan "left" n (pan "right" n self) = self).
Proof.
  split; [| split; [| split]].
  - intros key Hkey. unfold pan_keys in Hkey.
    rewrite !elem_of_cons in Hkey.
    destruct Hkey as [-> | [-> | [-> | [-> | [-> | [-> | [-> | [-> | Hkey]]]]]]]];
      [| | | | | | | | by apply elem_of_nil in Hkey].
    1-2: exists 0, (-1).
    3-4: exists 0, 1.
    5-6: exists (-1), 0.
    7-8: exists 1, 0.
    all: split; [unfold handle_key_press, set_offset; cbn;
                 f_equal; f_equal; lia |].
    all: split; [reflexivity |].
    all: repeat split; try reflexivity;
      rewrite !elem_of_cons in *; rewrite elem_of_nil in *;
      intuition discriminate.
  - intros o. repeat split.
  - intros key Hkey. unfold pan_keys in Hkey.
    rewrite !elem_of_cons, elem_of_nil in Hkey.
    unfold handle_key_press. cbn.
    repeat (rewrite decide_False;
            [| rewrite !elem_of_cons, elem_of_nil; tauto]).
    reflexivity.
  - intros n. rewrite pan_left, pan_right.
    destruct self as [? ? ? ? [ox oy] ? ? ? ? ? ?].
    unfold set_offset. cbn. f_equal. f_equal. lia.
Qed.

Lemma pan_moves_offset_only_witness :
  let self := life_engine 5 5 false MOORE vertical_blinker in
  ("left"%string ∈ pan_keys) ∧
  ∃ dx dy,
    handle_key_press self (mkKeyboardEvent "left") =
      set_offset self ((offset self).1 + dx, (offset self).2 + dy) ∧
    Z.abs dx + Z.abs dy = 1.
Proof.
  intros self.
  assert (Hkey : "left"%string ∈ pan_keys)
    by (unfold pan_keys; rewrite !elem_of_cons; tauto).
  split; [exact Hkey |].
  destruct (proj1 (pan_moves_offset_only self) "left"%string Hkey)
    as (dx & dy & Hpress & Habs & _).
  exists dx, dy. split; [exact Hpress | exact Habs].
Defined.


(** ** Further properties of the code *)

(** *** When a Life step raises *)

Lemma life_grid_empty self : grid self = ∅ → life_grid self = ∅.
Proof.
  intros He. unfold life_grid. by rewrite cells_to_check_empty.
Qed.

Lemma life_step_total self :
  mode self = LIFE →
  ¬ (infinite_mode self = false ∧
     (display_width self = 0 ∨ display_height self = 0) ∧
     grid self ≠ ∅) →
  next_generation self =
    Ok (set_generation (set_grid self (life_grid self))
          (generation self + 1)).
Proof.
  intros Hmode Hcond.
  destruct (infinite_mode self) eqn:Hinf;
    [apply life_step_grid; [done | by left] |].
  destruct (decide (display_width self = 0 ∨ display_height self = 0))
    as [Hz | Hnz].
  - destruct (decide (grid self = ∅)) as [He | Hne]; [| tauto].
    rewrite life_step_empty, life_grid_empty by done. done.
  - apply life_step_grid; [done |]. right. lia.
Qed.

Lemma life_step_ok_inv self self' :
  mode self = LIFE →
  next_generation self = Ok self' →
  self' = set_generation (set_grid self (life_grid self))
            (generation self + 1).
Proof.
  intros Hmode Hstep.
  destruct (decide (infinite_mode self = false ∧
                    (display_width self = 0 ∨ display_height self = 0) ∧
                    grid self ≠ ∅)) as [(Hfin & Hz & Hne) | Hcond].
  - by rewrite life_step_zero_dim in Hstep.
  - rewrite life_step_total in Hstep by done. by injection Hstep.
Qed.

(** X1. A Life step raises in exactly one situation: finite mode, a zero
    width or height, and a non-empty grid; the exception is then
    [ZeroDivisionError]. In every other state it returns the engine with
    a new grid and the generation increased by one, and an empty grid
    stays empty. *)
Theorem life_step_raises_iff self :
  mode self = LIFE →
  ((∃ e, next_generation self = Raise e) ↔
   infinite_mode self = false ∧
   (display_width self = 0 ∨ display_height self = 0) ∧
   grid self ≠ ∅) ∧
  (∀ e, next_generation self = Raise e → e = ZeroDivisionError) ∧
  (∀ self', next_generation self = Ok self' →
     generation self' = generation self + 1 ∧
     (grid self = ∅ → grid self' = ∅)).
Proof.
  intros Hmode. split; [| split].
  - split.
    + intros [e He].
      destruct (decide (infinite_mode self = false ∧
                        (display_width self = 0 ∨ display_height self = 0) ∧
                        grid self ≠ ∅)) as [Hc | Hc]; [done |].
      by rewrite life_step_total in He.
    + intros (Hfin & Hz & Hne). exists ZeroDivisionError.
      by apply life_step_zero_dim.
  - intros e He.
    destruct (decide (infinite_mode self = false ∧
                      (display_width self = 0 ∨ display_height self = 0) ∧
                      grid self ≠ ∅)) as [(Hfin & Hz & Hne) | Hc].
    + rewrite life_step_zero_dim in He by done. by injection He.
    + by rewrite life_step_total in He.
  - intros self' Hstep. apply life_step_ok_inv in Hstep as ->; [| done].
    split; [reflexivity |]. cbn. apply life_grid_empty.
Qed.

Lemma life_step_raises_iff_witness :
  let self := life_engine 0 5 false MOORE vertical_blinker in
  mode self = LIFE ∧
  next_generation self = Raise ZeroDivisionError.
Proof.
  intros self. split; [reflexivity |].
  destruct (proj2 (proj1 (life_step_raises_iff self eq_refl))) as [e He].
  - split; [reflexivity |]. split; [by left |].
    intros Hempty.
    assert (Hl : grid self !! (2, 2) = Some 1) by (vm_compute; reflexivity).
    rewrite Hempty in Hl. by rewrite lookup_empty in Hl.
  - rewrite He. f_equal.
    by apply (proj1 (proj2 (life_step_raises_iff self eq_refl))).
Defined.

(** *** Repeated Life steps *)

(** X2. From a Life engine whose counting loops cannot divide by zero,
    any number of successive steps succeeds; the generation grows by the
    number of steps, the dimensions, boundary mode, ruleset, offset and
    mode never change, and after at least one step every stored value
    is 1. *)
Theorem life_advance_runs n self :
  mode self = LIFE →
  runs self →
  ∃ self',
    advance n self = Ok self' ∧
    generation self' = generation self + Z.of_nat n ∧
    display_width self' = display_width self ∧
    display_height self' = display_height self ∧
    infinite_mode self' = infinite_mode self ∧
    rules self' = rules self ∧
    offset self' = offset self ∧
    mode self' = LIFE ∧
    ((0 < n)%nat → only_alive (grid self')).
Proof.
  revert self. induction n as [| n IH]; intros self Hmode Hruns.
  - exists self. cbn. rewrite Z.add_0_r. repeat (split; [done |]). lia.
  - cbn [advance]. rewrite life_step_grid by done. cbn.
    set (s1 := set_generation (set_grid self (life_grid self))
                 (generation self + 1)).
    destruct (IH s1 Hmode Hruns)
      as (s' & Hadv & Hgen & Hw & Hh & Hinf & Hrl & Hoff & Hm & Hinv).
    exists s'. split; [exact Hadv |].
    split; [rewrite Hgen; cbn; lia |].
    repeat (split; [done |]).
    intros _. destruct n as [| n'].
    + cbn in Hadv. injection Hadv as <-. apply life_grid_only_alive.
    + apply Hinv. lia.
Qed.

Lemma life_advance_runs_witness :
  let self := life_engine 5 5 false MOORE vertical_blinker in
  mode self = LIFE ∧ runs self ∧
  ∃ self', advance 2 self = Ok self' ∧ generation self' = 0 + 2.
Proof.
  intros self.
  assert (Hruns : runs self) by (right; cbn; lia).
  split; [reflexivity |]. split; [exact Hruns |].
  destruct (life_advance_runs 2 self eq_refl Hruns) as (s' & Hadv & Hgen & _).
  exists s'. split; [exact Hadv | exact Hgen].
Defined.

(** *** Growth of the population area *)

Lemma moore_cells_near c k :
  c ∈ moore_cells k →
  k.1 - 1 ≤ c.1 ≤ k.1 + 1 ∧ k.2 - 1 ≤ c.2 ≤ k.2 + 1.
Proof.
  unfold moore_cells. cbn. rewrite !elem_of_cons, elem_of_nil.
  intros [-> | [-> | [-> | [-> | [-> | [-> | [-> | [-> | []]]]]]]]];
    cbn; lia.
Qed.

(** X3. A Life step extends the populated area by at most one cell in
    each direction: when every key of the grid lies in the rectangle
    [x0, x1] × [y0, y1], every key of the next grid lies in
    [x0 - 1, x1 + 1] × [y0 - 1, y1 + 1], in finite mode too. *)
Theorem life_step_grows_by_one self self' x0 x1 y0 y1 :
  mode self = LIFE →
  next_generation self = Ok self' →
  within (grid self) x0 x1 y0 y1 →
  within (grid self') (x0 - 1) (x1 + 1) (y0 - 1) (y1 + 1).
Proof.
  intros Hmode Hstep Hbox c Hc.
  apply life_step_ok_inv in Hstep as ->; [| done]. cbn in Hc.
  apply elem_of_dom in Hc as [v Hv]. rewrite life_grid_lookup in Hv.
  case_decide as Hk; [| done]. destruct Hk as [Hcand _].
  apply cells_to_check_spec in Hcand as [Hd | (k & Hk & Hnear)].
  - specialize (Hbox c Hd). lia.
  - specialize (Hbox k Hk). apply moore_cells_near in Hnear. lia.
Qed.

Lemma life_step_grows_by_one_witness :
  let self := life_engine 5 5 false MOORE edge_column in
  ∃ self',
    mode self = LIFE ∧
    next_generation self = Ok self' ∧
    within (grid self) 0 0 1 3 ∧
    within (grid self') (0 - 1) (0 + 1) (1 - 1) (3 + 1).
Proof.
  intros self.
  assert (Hbox : within (grid self) 0 0 1 3).
  { intros c Hc.
    assert (Hdom : dom (grid self) = {[ (0, 1); (0, 2); (0, 3) ]})
      by (vm_compute; reflexivity).
    rewrite Hdom in Hc.
    apply elem_of_union in Hc as [Hc | Hc];
      [apply elem_of_union in Hc as [Hc | Hc] |];
      apply elem_of_singleton in Hc; subst c; cbn; lia. }
  assert (Hstep : next_generation self =
                    Ok (set_generation (set_grid self (life_grid self))
                          (generation self + 1)))
    by (apply life_step_grid; [reflexivity | right; cbn; lia]).
  eexists. split; [reflexivity |]. split; [exact Hstep |].
  split; [exact Hbox |].
  exact (life_step_grows_by_one self _ 0 0 1 3 eq_refl Hstep Hbox).
Defined.

(** *** Range and periodicity of the counts *)

Lemma sum_Z_bounds (l : list Z) :
  (∀ v, v ∈ l → 0 ≤ v ≤ 1) → 0 ≤ sum_Z l ≤ Z.of_nat (length l).
Proof.
  induction l as [| a l IH]; intros Hl; cbn; [lia |].
  pose proof (Hl a ltac:(by left)).
  assert (0 ≤ sum_Z l ≤ Z.of_nat (length l))
    by (apply IH; intros v Hv; apply Hl; by right).
  unfold sum_Z in *. lia.
Qed.

Lemma sum_Z_nonzero (l : list Z) : sum_Z l ≠ 0 → ∃ v, v ∈ l ∧ v ≠ 0.
Proof.
  induction l as [| a l IH]; cbn; [done |]. intros Hs.
  destruct (decide (a = 0)) as [-> | Ha].
  - destruct IH as (v & Hv & Hnz); [unfold sum_Z in *; lia |].
    exists v. split; [by right | done].
  - exists a. split; [by left | done].
Qed.

Lemma binary_dict_get g c : binary g → 0 ≤ dict_get g c 0 ≤ 1.
Proof.
  intros Hb. unfold dict_get. destruct (g !! c) as [v |] eqn:Hv; [| lia].
  destruct (Hb c v Hv); lia.
Qed.

Lemma neighbor_sum_range self x y :
  binary (grid self) →
  0 ≤ neighbor_sum self x y ≤ 8 ∧
  (rules self = VAN_NEUMANN → neighbor_sum self x y ≤ 4).
Proof.
  intros Hb. unfold neighbor_sum.
  set (l := map _ _).
  assert (Hl : 0 ≤ sum_Z l ≤ Z.of_nat (length l)).
  { apply sum_Z_bounds. intros v Hv. unfold l in Hv.
    apply list_elem_of_fmap in Hv as (d & -> & _).
    by apply binary_dict_get. }
  assert (Hlen : length l = length (neighborhood (rules self)))
    by (unfold l; by rewrite length_map).
  rewrite Hlen in Hl. clearbody l.
  destruct (rules self); cbn in Hl; (split; [lia |]);
    intros Hr; [done | lia].
Qed.

(** X4. When every stored value is 0 or 1 and the counting loops cannot
    divide by zero, the count is a number between 0 and 8, and between 0
    and 4 under the Von Neumann ruleset. *)
Theorem neighbor_count_bounds self x y :
  binary (grid self) →
  runs self →
  ∃ n,
    get_neighbors self x y = Ok n ∧
    0 ≤ n ≤ 8 ∧
    (rules self = VAN_NEUMANN → n ≤ 4).
Proof.
  intros Hb Hruns. exists (neighbor_sum self x y).
  split; [by apply get_neighbors_sum | by apply neighbor_sum_range].
Qed.

Lemma neighbor_count_bounds_witness :
  let self := life_engine 3 3 false VAN_NEUMANN full_3x3 in
  binary (grid self) ∧ runs self ∧
  ∃ n, get_neighbors self 0 0 = Ok n ∧ 0 ≤ n ≤ 8 ∧ n ≤ 4.
Proof.
  intros self.
  assert (Hb : binary (grid self)).
  { intros c v Hv. right. cbn in Hv. unfold full_3x3, cells in Hv.
    cbn in Hv. rewrite !lookup_insert in Hv.
    repeat case_decide; try congruence. by rewrite lookup_empty in Hv. }
  assert (Hruns : runs self) by (right; cbn; lia).
  split; [exact Hb |]. split; [exact Hruns |].
  destruct (neighbor_count_bounds self 0 0 Hb Hruns) as (n & Hn & Hr & Hvn).
  exists n. split; [exact Hn |]. split; [exact Hr | by apply Hvn].
Defined.

(** X5. In finite mode the count is periodic: moving the cell by any
    multiple of the width along x and of the height along y leaves the
    count unchanged, the window offset playing no part in it. *)
Theorem finite_count_is_periodic self x y i j :
  infinite_mode self = false →
  display_width self ≠ 0 →
  display_height self ≠ 0 →
  get_neighbors self (x + i * display_width self)
    (y + j * display_height self) = get_neighbors self x y.
Proof.
  intros Hfin Hw Hh.
  rewrite !get_neighbors_sum by (right; done).
  f_equal. unfold neighbor_sum. f_equal.
  apply map_ext. intros [dx dy]. f_equal.
  unfold seen, torus. rewrite Hfin. cbn [fst snd]. f_equal; f_equal.
  - replace (x + i * display_width self + dx - (offset self).1)
      with (x + dx - (offset self).1 + i * display_width self) by lia.
    by rewrite Z.mod_add.
  - replace (y + j * display_height self + dy - (offset self).2)
      with (y + dy - (offset self).2 + j * display_height self) by lia.
    by rewrite Z.mod_add.
Qed.

Lemma finite_count_is_periodic_witness :
  let self := life_engine 5 5 false MOORE edge_column in
  infinite_mode self = false ∧
  display_width self ≠ 0 ∧ display_height self ≠ 0 ∧
  get_neighbors self (4 + 2 * display_width self)
    (2 + -1 * display_height self) = get_neighbors self 4 2.
Proof.
  intros self. split; [reflexivity |].
  split; [by cbn |]. split; [by cbn |].
  apply (finite_count_is_periodic self 4 2 2 (-1)); [reflexivity | | ]; by cbn.
Defined.

(** *** The candidates and the rule *)

Lemma moore_cells_iff c k :
  c ∈ moore_cells k ↔
  k.1 - 1 ≤ c.1 ≤ k.1 + 1 ∧ k.2 - 1 ≤ c.2 ≤ k.2 + 1 ∧ c ≠ k.
Proof.
  split.
  - intros Hc. pose proof (moore_cells_near c k Hc) as [? ?].
    split; [done |]. split; [done |].
    unfold moore_cells in Hc. cbn in Hc.
    rewrite !elem_of_cons, elem_of_nil in Hc.
    destruct k as [kx ky].
    intros ->. cbn in Hc.
    destruct Hc as [Hc | [Hc | [Hc | [Hc | [Hc | [Hc | [Hc | [Hc | []]]]]]]]];
      injection Hc; lia.
  - destruct c as [cx cy], k as [kx ky]. cbn. intros (Hx & Hy & Hne).
    assert (∃ dx, cx = kx + dx ∧ (dx = -1 ∨ dx = 0 ∨ dx = 1))
      as (dx & -> & Hdx) by (exists (cx - kx); lia).
    assert (∃ dy, cy = ky + dy ∧ (dy = -1 ∨ dy = 0 ∨ dy = 1))
      as (dy & -> & Hdy) by (exists (cy - ky); lia).
    unfold moore_cells. cbn. rewrite !elem_of_cons.
    destruct Hdx as [-> | [-> | ->]], Hdy as [-> | [-> | ->]];
      try tauto.
    exfalso. apply Hne. f_equal; lia.
Qed.

Lemma cells_to_check_near self c :
  c ∈ cells_to_check self ↔
  ∃ k, k ∈ dom (grid self) ∧
       k.1 - 1 ≤ c.1 ≤ k.1 + 1 ∧ k.2 - 1 ≤ c.2 ≤ k.2 + 1.
Proof.
  rewrite cells_to_check_spec. split.
  - intros [Hd | (k & Hk & Hnear)].
    + exists c. split; [done | lia].
    + exists k. split; [done |]. apply moore_cells_near in Hnear. lia.
  - intros (k & Hk & Hx & Hy).
    destruct (decide (c = k)) as [-> | Hne]; [by left |].
    right. exists k. split; [done |]. apply moore_cells_iff. tauto.
Qed.

Lemma neighborhood_near r d :
  d ∈ neighborhood r → -1 ≤ d.1 ≤ 1 ∧ -1 ≤ d.2 ≤ 1.
Proof.
  destruct r; cbn; rewrite !elem_of_cons, elem_of_nil; intros Hd;
    repeat (destruct Hd as [-> | Hd]; [cbn; lia |]); done.
Qed.

Lemma positive_count_is_candidate self x y :
  infinite_mode self = true →
  neighbor_sum self x y ≠ 0 →
  (x, y) ∈ cells_to_check self.
Proof.
  intros Hinf Hn. unfold neighbor_sum in Hn.
  apply sum_Z_nonzero in Hn as (v & Hv & Hnz).
  apply list_elem_of_fmap in Hv as (d & -> & Hd).
  unfold seen in Hnz. rewrite Hinf in Hnz.
  apply cells_to_check_near. exists (x + d.1, y + d.2). split.
  - apply elem_of_dom. unfold dict_get in Hnz.
    destruct (grid self !! (x + d.1, y + d.2)); [by eexists | done].
  - apply neighborhood_near in Hd. cbn. lia.
Qed.

Lemma keeps_is_candidate self c :
  infinite_mode self = true → keeps self c → c ∈ cells_to_check self.
Proof.
  intros Hinf [[Halive _] | [_ Hn]].
  - apply cells_to_check_spec. left. apply elem_of_dom.
    unfold is_alive, dict_get in Halive.
    destruct (grid self !! c); [by eexists | done].
  - destruct c as [x y]. apply positive_count_is_candidate; [done |].
    cbn in Hn. lia.
Qed.

(** X6. In infinite mode the candidate set misses nothing: after a Life
    step a cell of the plane is in the grid, with value 1, exactly when it
    satisfies the rule (alive with 2 or 3 neighbours, or not alive with
    exactly 3), candidate or not. *)
Theorem infinite_life_step_is_the_rule self c :
  mode self = LIFE →
  infinite_mode self = true →
  ∃ self' n,
    next_generation self = Ok self' ∧
    get_neighbors self c.1 c.2 = Ok n ∧
    (grid self' !! c = Some 1 ↔
       (dict_get (grid self) c 0 = 1 ∧ 2 ≤ n ≤ 3) ∨
       (dict_get (grid self) c 0 ≠ 1 ∧ n = 3)) ∧
    (grid self' !! c = Some 1 ∨ grid self' !! c = None).
Proof.
  intros Hmode Hinf.
  assert (Hruns : runs self) by (by left).
  eexists _, (neighbor_sum self c.1 c.2).
  split; [by apply life_step_grid |].
  split; [by apply get_neighbors_sum |].
  cbn. rewrite life_grid_lookup. split.
  - split.
    + case_decide as Hk; [| done]. intros _. exact (proj2 Hk).
    + intros Hrule. rewrite decide_True; [done |].
      split; [by apply keeps_is_candidate | exact Hrule].
  - case_decide; auto.
Qed.

Lemma infinite_life_step_is_the_rule_witness :
  let self := life_engine 5 5 true MOORE edge_column in
  mode self = LIFE ∧ infinite_mode self = true ∧
  ∃ self' n,
    next_generation self = Ok self' ∧
    get_neighbors self (-1) 2 = Ok n ∧
    (grid self' !! (-1, 2) = Some 1 ↔
       (dict_get (grid self) (-1, 2) 0 = 1 ∧ 2 ≤ n ≤ 3) ∨
       (dict_get (grid self) (-1, 2) 0 ≠ 1 ∧ n = 3)).
Proof.
  intros self. split; [reflexivity |]. split; [reflexivity |].
  destruct (infinite_life_step_is_the_rule self (-1, 2) eq_refl eq_refl)
    as (s' & n & Hstep & Hn & Hiff & _).
  exists s', n. split; [exact Hstep |]. split; [exact Hn | exact Hiff].
Defined.

(** X7. In finite mode the candidate set does miss cells that satisfy the
    rule through the wrap: for the vertical triple at column 0 of the 5×5
    window the cell (4, 2) is dead, counts exactly 3 neighbours and lies
    in the window, yet it is no candidate and is absent after the step
    (the cell born across the seam is (-1, 2), outside the window). *)
Theorem finite_life_step_misses_wrapped_birth :
  let self := life_engine 5 5 false MOORE edge_column in
  in_window self (4, 2) ∧
  dict_get (grid self) (4, 2) 0 = 0 ∧
  get_neighbors self 4 2 = Ok 3 ∧
  ((4, 2) ∉ cells_to_check self) ∧
  ∃ self',
    next_generation self = Ok self' ∧
    grid self' !! (4, 2) = None ∧
    grid self' !! (-1, 2) = Some 1.
Proof.
  intros self.
  split; [unfold in_window; cbn; lia |].
  split; [vm_compute; reflexivity |].
  split; [vm_compute; reflexivity |].
  split.
  - rewrite cells_to_check_near. intros (k & Hk & Hx & Hy).
    assert (Hdom : dom (grid self) = {[ (0, 1); (0, 2); (0, 3) ]})
      by (vm_compute; reflexivity).
    rewrite Hdom in Hk.
    apply elem_of_union in Hk as [Hk | Hk];
      [apply elem_of_union in Hk as [Hk | Hk] |];
      apply elem_of_singleton in Hk; subst k; cbn in Hx; lia.
  - exists (mkGameOfLife 5 5 false MOORE (0, 0) LIFE 1 10
              (cells [(-1, 2); (0, 2); (1, 2)]) None None).
    split; [vm_compute; reflexivity |].
    split; vm_compute; reflexivity.
Qed.

(** *** Stored zeros *)

Lemma dict_get_without_zeros g c :
  dict_get (without_zeros g) c 0 = dict_get g c 0.
Proof.
  unfold dict_get, without_zeros.
  destruct (filter (λ kv : Z * Z * Z, kv.2 ≠ 0) g !! c) as [v |] eqn:Hf.
  - apply map_lookup_filter_Some in Hf as [-> _]. done.
  - destruct (g !! c) as [v |] eqn:Hg; [| done].
    destruct (decide (v = 0)) as [-> | Hv]; [done |].
    assert (filter (λ kv : Z * Z * Z, kv.2 ≠ 0) g !! c = Some v)
      by (by apply map_lookup_filter_Some).
    congruence.
Qed.

Lemma neighbor_sum_without_zeros self x y :
  neighbor_sum (set_grid self (without_zeros (grid self))) x y =
    neighbor_sum self x y.
Proof.
  unfold neighbor_sum. cbn [rules grid set_grid]. f_equal.
  apply map_ext. intros d. by rewrite dict_get_without_zeros.
Qed.

(** X8. In infinite mode an entry of value 0, as the constructor may
    store, is as good as an absent cell: the Life step from a grid and
    from the same grid without its zero entries return the same
    engine. *)
Theorem infinite_life_step_ignores_zeros self :
  mode self = LIFE →
  infinite_mode self = true →
  next_generation (set_grid self (without_zeros (grid self))) =
    next_generation self.
Proof.
  intros Hmode Hinf.
  set (s0 := set_grid self (without_zeros (grid self))).
  rewrite (life_step_grid s0), (life_step_grid self)
    by (done || by left).
  assert (Hgrid : life_grid s0 = life_grid self).
  { apply map_eq. intros c. rewrite !life_grid_lookup.
    assert (Hkeeps : keeps s0 c ↔ keeps self c).
    { unfold keeps, life_rule, is_alive, s0.
      rewrite neighbor_sum_without_zeros. cbn [grid set_grid].
      by rewrite dict_get_without_zeros. }
    destruct (decide (keeps self c)) as [Hk | Hk].
    - rewrite !decide_True; [done | |].
      + split; [by apply keeps_is_candidate | done].
      + split; [apply keeps_is_candidate; [done | by apply Hkeeps]
               | by apply Hkeeps].
    - rewrite !decide_False; [done | |]; intros [_ ?]; apply Hk;
        [done | by apply Hkeeps]. }
  unfold s0 at 1 3. unfold set_generation, set_grid. cbn. by rewrite Hgrid.
Qed.

Lemma infinite_life_step_ignores_zeros_witness :
  let self := mkGameOfLife 3 3 true MOORE (0, 0) LIFE 0 10
                (<[(1, 1) := 0]> vertical_blinker) None None in
  mode self = LIFE ∧ infinite_mode self = true ∧
  next_generation (set_grid self (without_zeros (grid self))) =
    next_generation self.
Proof.
  intros self. split; [reflexivity |]. split; [reflexivity |].
  exact (infinite_life_step_ignores_zeros self eq_refl eq_refl).
Defined.

(** *** The colours of [print_neighbors_rich] and the next generation *)

(** X9. The colours follow the Life step as the docstring says, up to the
    finite-mode seam. With the counting loops unable to divide by zero: a
    cell is red exactly when it is stored as 1 and absent after the step;
    a cell stored as 0 or absent that is in the grid after the step is
    green; and in infinite mode a cell is green exactly when it is stored
    as 0 or absent and in the grid after the step. *)
Theorem neighbor_colors_follow_the_step self c :
  mode self = LIFE →
  runs self →
  ∃ self' n,
    next_generation self = Ok self' ∧
    get_neighbors self c.1 c.2 = Ok n ∧
    let color := neighbor_color (dict_get (grid self) c 0) n in
    (color = "red"%string ↔
       dict_get (grid self) c 0 = 1 ∧ grid self' !! c = None) ∧
    (dict_get (grid self) c 0 = 0 ∧ grid self' !! c = Some 1 →
       color = "green"%string) ∧
    (infinite_mode self = true →
       (color = "green"%string ↔
          dict_get (grid self) c 0 = 0 ∧ grid self' !! c = Some 1)).
Proof.
  intros Hmode Hruns.
  eexists _, (neighbor_sum self c.1 c.2).
  split; [by apply life_step_grid |].
  split; [by apply get_neighbors_sum |].
  cbn. rewrite life_grid_lookup.
  unfold neighbor_color, keeps, life_rule, is_alive.
  set (v := dict_get (grid self) c 0).
  set (n := neighbor_sum self c.1 c.2).
  assert (Hdom : v = 1 → c ∈ cells_to_check self).
  { intros Hv. apply cells_to_check_spec. left. apply elem_of_dom.
    unfold v, dict_get in Hv. destruct (grid self !! c); [by eexists | done]. }
  split; [| split].
  - split.
    + case_decide as Hred; [| by case_decide].
      intros _. destruct Hred as [Hv Hn]. split; [done |].
      rewrite decide_False; [done |]. intros [_ [[_ ?] | [? _]]]; [lia | done].
    + intros [Hv Hnone]. case_decide as Hk; [done |].
      rewrite decide_True; [done |]. split; [done |].
      destruct (decide (2 ≤ n ≤ 3)) as [Hn | Hn]; [| lia].
      exfalso. apply Hk. split; [by apply Hdom | left; by split].
  - intros [Hv Hborn]. case_decide as Hk; [| done].
    destruct Hk as [_ [[Hv1 _] | [_ Hn]]]; [lia |].
    rewrite decide_False by lia. by rewrite decide_True.
  - intros Hinf. split.
    + case_decide as Hred; [done |].
      case_decide as Hgreen; [| done]. intros _.
      destruct Hgreen as [Hv Hn]. split; [done |].
      rewrite decide_True; [done |].
      assert (Hk : keeps self c)
        by (right; unfold is_alive; fold v n; split; [lia | done]).
      split; [by apply keeps_is_candidate | exact Hk].
    + intros [Hv Hborn]. case_decide as Hk; [| done].
      destruct Hk as [_ [[Hv1 _] | [_ Hn]]]; [lia |].
      rewrite decide_False by lia. by rewrite decide_True.
Qed.

Lemma neighbor_colors_follow_the_step_witness :
  let self := life_engine 5 5 true MOORE vertical_blinker in
  mode self = LIFE ∧ runs self ∧
  ∃ self' n,
    next_generation self = Ok self' ∧
    get_neighbors self 2 1 = Ok n ∧
    (neighbor_color (dict_get (grid self) (2, 1) 0) n = "red"%string ↔
       dict_get (grid self) (2, 1) 0 = 1 ∧ grid self' !! (2, 1) = None).
Proof.
  intros self.
  assert (Hruns : runs self) by (by left).
  split; [reflexivity |]. split; [exact Hruns |].
  destruct (neighbor_colors_follow_the_step self (2, 1) eq_refl Hruns)
    as (s' & n & Hstep & Hn & Hred & _).
  exists s', n. split; [exact Hstep |]. split; [exact Hn | exact Hred].
Defined.

(** *** Panning and stepping *)

Lemma handle_key_press_shift self ev :
  handle_key_press self ev =
    set_offset self (key_shift (name ev) (offset self)).
Proof.
  unfold handle_key_press, key_shift.
  repeat case_decide; try reflexivity.
  by destruct self as [? ? ? ? [ox oy] ? ? ? ? ? ?].
Qed.

Lemma life_grid_set_offset self o :
  infinite_mode self = true →
  life_grid (set_offset self o) = life_grid self.
Proof.
  intros Hinf. apply map_eq. intros c. rewrite !life_grid_lookup.
  assert (Hsum : neighbor_sum (set_offset self o) c.1 c.2 =
                   neighbor_sum self c.1 c.2).
  { unfold neighbor_sum, seen. cbn [set_offset infinite_mode rules grid].
    by rewrite Hinf. }
  assert (Hkeeps : keeps (set_offset self o) c ↔ keeps self c)
    by (unfold keeps; by rewrite Hsum).
  assert (Hcand : cells_to_check (set_offset self o) = cells_to_check self)
    by reflexivity.
  rewrite Hcand.
  destruct (decide (c ∈ cells_to_check self ∧ keeps self c)) as [Hk | Hk].
  - rewrite decide_True; [done |]. split; [tauto | apply Hkeeps; tauto].
  - rewrite decide_False; [done |]. intros [? ?]. apply Hk.
    split; [done | by apply Hkeeps].
Qed.

Lemma step_set_offset self o :
  mode self = ANTS ∨ infinite_mode self = true →
  next_generation (set_offset self o) =
    match next_generation self with
    | Ok s => Ok (set_offset s o)
    | Raise e => Raise e
    end.
Proof.
  intros Hcase. destruct (mode self) eqn:Hmode.
  - destruct Hcase as [? | Hinf]; [done |].
    rewrite (life_step_grid (set_offset self o)), (life_step_grid self)
      by (done || by left).
    rewrite life_grid_set_offset by done. reflexivity.
  - unfold next_generation. cbn [set_offset mode]. rewrite Hmode.
    unfold _next_generation_ant. cbn [set_offset ant_position grid].
    destruct (ant_position self) as [[x y] |]; [| done]. cbn.
    destruct (decide (dict_get (grid self) (x, y) 0 = 0)) as [Hd | Hd].
    + cbn. destruct (ant_direction self) as [d |]; [| done]. cbn.
      unfold mod_. rewrite decide_False by lia. cbn.
      by destruct (getitem _ _) as [[dx dy] |].
    + destruct (dict_del (grid self) (x, y)); [| done]. cbn.
      destruct (ant_direction self) as [d |]; [| done]. cbn.
      unfold mod_. rewrite decide_False by lia. cbn.
      by destruct (getitem _ _) as [[dx dy] |].
Qed.

Lemma step_keeps_offset self self' :
  next_generation self = Ok self' → offset self' = offset self.
Proof.
  unfold next_generation. destruct (mode self).
  - unfold _next_generation_life.
    destruct (for_in _ _ _); [| done]. cbn. by intros [= <-].
  - unfold _next_generation_ant.
    destruct (ant_position self) as [[x y] |]; [| done]. cbn.
    destruct (if decide (dict_get (grid self) (x, y) 0 = 0)
              then Ok (<[(x, y) := 1]> (grid self))
              else dict_del (grid self) (x, y)); [| done]. cbn.
    destruct (ant_direction self) as [d |]; [| done]. cbn.
    destruct (if decide (dict_get (grid self) (x, y) 0 = 0)
              then mod_ (d + 1) 4 else mod_ (d - 1) 4); [| done]. cbn.
    destruct (getitem _ _) as [[dx dy] |]; [| done]. cbn.
    by intros [= <-].
Qed.

(** X10. In Ant mode, and in Life mode with the infinite boundary, a key
    press and a step commute: pressing a key and then stepping gives the
    engine that stepping and then pressing the key gives, and raises
    when the step alone raises. *)
Theorem pan_commutes_with_step self ev :
  mode self = ANTS ∨ infinite_mode self = true →
  next_generation (handle_key_press self ev) =
    match next_generation self with
    | Ok s => Ok (handle_key_press s ev)
    | Raise e => Raise e
    end.
Proof.
  intros Hcase. rewrite handle_key_press_shift, step_set_offset by done.
  destruct (next_generation self) as [s |] eqn:Hstep; [| done].
  rewrite handle_key_press_shift.
  by rewrite (step_keeps_offset self s).
Qed.

Lemma pan_commutes_with_step_witness :
  let self := life_engine 5 5 true MOORE vertical_blinker in
  (mode self = ANTS ∨ infinite_mode self = true) ∧
  next_generation (handle_key_press self (mkKeyboardEvent "left")) =
    match next_generation self with
    | Ok s => Ok (handle_key_press s (mkKeyboardEvent "left"))
    | Raise e => Raise e
    end.
Proof.
  intros self. split; [by right |].
  apply (pan_commutes_with_step self (mkKeyboardEvent "left")). by right.
Defined.

(** *** What the finite mode sees *)

Lemma dict_get_inside_window self c :
  in_window self c →
  dict_get (inside_window self) c 0 = dict_get (grid self) c 0.
Proof.
  intros Hin. unfold dict_get, inside_window.
  destruct (grid self !! c) as [v |] eqn:Hg.
  - assert (filter (λ kv : Z * Z * Z, in_window self kv.1) (grid self) !! c
            = Some v) as -> by (by apply map_lookup_filter_Some).
    done.
  - assert (filter (λ kv : Z * Z * Z, in_window self kv.1) (grid self) !! c
            = None) as ->; [| done].
    apply map_lookup_filter_None. by left.
Qed.

(** X11. In finite mode with positive dimensions the count reads cells of
    the window only: entries stored outside the window, which steps and
    panning both produce, contribute to no count. The count of any cell is
    the same on the grid and on the grid restricted to the window. *)
Theorem finite_count_reads_window_only self x y :
  infinite_mode self = false →
  0 < display_width self →
  0 < display_height self →
  get_neighbors (set_grid self (inside_window self)) x y =
    get_neighbors self x y.
Proof.
  intros Hfin Hw Hh.
  rewrite !get_neighbors_sum by (right; cbn; lia).
  f_equal. unfold neighbor_sum. cbn [set_grid rules grid]. f_equal.
  apply map_ext. intros d.
  unfold seen. cbn [set_grid infinite_mode display_width display_height
                      offset]. rewrite Hfin.
  apply dict_get_inside_window. unfold in_window. cbn [fst snd].
  pose proof (torus_window (display_width self) (offset self).1
                (x + d.1) Hw) as [_ ?].
  pose proof (torus_window (display_height self) (offset self).2
                (y + d.2) Hh) as [_ ?].
  lia.
Qed.

Lemma finite_count_reads_window_only_witness :
  let self := life_engine 5 5 false MOORE
                (cells [(-1, 2); (0, 2); (1, 2)]) in
  infinite_mode self = false ∧
  0 < display_width self ∧ 0 < display_height self ∧
  get_neighbors (set_grid self (inside_window self)) 0 1 =
    get_neighbors self 0 1.
Proof.
  intros self. split; [reflexivity |].
  split; [cbn; lia |]. split; [cbn; lia |].
  apply (finite_count_reads_window_only self 0 1);
    [reflexivity | cbn; lia | cbn; lia].
Defined.

(** *** The walk of the ant *)

Ltac lia_div := Z.to_euclidean_division_equations; lia.

Lemma heading_vector_unit i :
  Z.abs (heading_vector i).1 + Z.abs (heading_vector i).2 = 1.
Proof. unfold heading_vector. repeat case_decide; cbn; lia. Qed.

Lemma flip_cell_size g p :
  only_alive g →
  size (flip_cell g p) = S (size g) ∨ S (size (flip_cell g p)) = size g.
Proof.
  intros Hinv. unfold flip_cell, dict_get.
  destruct (g !! p) as [v |] eqn:Hp.
  - pose proof (Hinv p v Hp) as ->. rewrite decide_False by lia.
    right. rewrite map_size_delete_Some by (by eexists).
    assert (size g ≠ 0%nat); [| lia].
    intros Hz. apply map_size_empty_inv in Hz. subst g.
    by rewrite lookup_empty in Hp.
  - rewrite decide_True by done. left. by apply map_size_insert_None.
Qed.

(** X12. From an engine in Ant mode whose ant attributes are set and whose
    grid stores 1s only (as the Ant constructor builds it), any number [n]
    of steps succeeds and keeps these facts. After them the generation has
    grown by [n], the heading lies in 0..3 once a step was made and has
    the parity of the initial heading plus [n], the ant is at Manhattan
    distance at most [n] from its start on a cell whose coordinate sum has
    the parity of the initial one plus [n], and the number of stored cells
    differs from the initial one by at most [n], with the parity of
    [n]. *)
Theorem ant_advance_walk n self p d :
  mode self = ANTS →
  ant_position self = Some p →
  ant_direction self = Some d →
  only_alive (grid self) →
  ∃ self' p' d',
    advance n self = Ok self' ∧
    mode self' = ANTS ∧
    ant_position self' = Some p' ∧
    ant_direction self' = Some d' ∧
    only_alive (grid self') ∧
    generation self' = generation self + Z.of_nat n ∧
    ((0 < n)%nat → 0 ≤ d' < 4) ∧
    (d' - d - Z.of_nat n) `mod` 2 = 0 ∧
    Z.abs (p'.1 - p.1) + Z.abs (p'.2 - p.2) ≤ Z.of_nat n ∧
    (p'.1 + p'.2 - (p.1 + p.2) - Z.of_nat n) `mod` 2 = 0 ∧
    Z.abs (Z.of_nat (size (grid self')) - Z.of_nat (size (grid self)))
      ≤ Z.of_nat n ∧
    (Z.of_nat (size (grid self')) - Z.of_nat (size (grid self))
       - Z.of_nat n) `mod` 2 = 0.
Proof.
  revert self p d.
  induction n as [| n IH]; intros self p d Hmode Hpos Hdir Hinv.
  - exists self, p, d. cbn [advance].
    repeat (split; [done || lia_div |]). lia_div.
  - cbn [advance]. rewrite (ant_step_run self p d) by done.
    set (t := turn (grid self) p d).
    set (p1 := (p.1 + (heading_vector t).1, p.2 + (heading_vector t).2)).
    set (s1 := set_generation
                 (set_ant (set_grid self (flip_cell (grid self) p)) p1 t)
                 (generation self + 1)).
    change (Ok s1 ≫= advance n) with (advance n s1).
    assert (Hinv1 : only_alive (grid s1))
      by (by apply flip_cell_only_alive).
    destruct (IH s1 p1 t Hmode eq_refl eq_refl Hinv1)
      as (s' & p' & d' & Hadv & Hm & Hp' & Hd' & Hi' & Hgen & Hrange
          & Hdpar & Hdist & Hppar & Hsize & Hspar).
    exists s', p', d'.
    pose proof (turn_range (grid self) p d) as Ht. fold t in Ht.
    pose proof (heading_vector_unit t) as Hunit.
    pose proof (flip_cell_size (grid self) p Hinv) as Hflip.
    assert (Ht2 : (t - d - 1) `mod` 2 = 0).
    { unfold t, turn. case_decide; lia_div. }
    cbn [s1 set_generation set_ant set_grid grid generation] in *.
    cbn [p1 fst snd] in *.
    split; [exact Hadv |]. split; [exact Hm |]. split; [exact Hp' |].
    split; [exact Hd' |]. split; [exact Hi' |].
    split; [lia |].
    split.
    { intros _. destruct n as [| n'].
      - cbn in Hadv. injection Hadv as <-. cbn in Hd'.
        injection Hd' as <-. exact Ht.
      - apply Hrange. lia. }
    split; [lia_div |]. split; [lia |]. split; [lia_div |].
    split; [lia | lia_div].
Qed.

Lemma ant_advance_walk_witness :
  let self := mkGameOfLife 5 5 true MOORE (0, 0) ANTS 0 10 ∅
                (Some (2, 2)) (Some 0) in
  mode self = ANTS ∧
  ant_position self = Some (2, 2) ∧
  ant_direction self = Some 0 ∧
  only_alive (grid self) ∧
  ∃ self' p' d',
    advance 11 self = Ok self' ∧
    ant_position self' = Some p' ∧
    ant_direction self' = Some d' ∧
    generation self' = 0 + Z.of_nat 11 ∧
    (d' - 0 - Z.of_nat 11) `mod` 2 = 0.
Proof.
  intros self.
  assert (Hinv : only_alive (grid self))
    by (intros c v; cbn; by rewrite lookup_empty).
  split; [reflexivity |]. split; [reflexivity |]. split; [reflexivity |].
  split; [exact Hinv |].
  destruct (ant_advance_walk 11 self (2, 2) 0 eq_refl eq_refl eq_refl Hinv)
    as (s' & p' & d' & Hadv & _ & Hp' & Hd' & _ & Hgen & _ & Hpar & _).
  exists s', p', d'. split; [exact Hadv |]. split; [exact Hp' |].
  split; [exact Hd' |]. split; [exact Hgen | exact Hpar].
Defined.

(** X13. The Ant constructor puts the ant inside the window exactly when
    width and height are positive. *)
Theorem ant_starts_inside_window w h inf rl off rps r :
  ∃ self p,
    __init__ w h inf rl off ANTS rps r = Ok (self, r) ∧
    ant_position self = Some p ∧
    (in_window self p ↔ 0 < w ∧ 0 < h).
Proof.
  rewrite init_ants. cbn zeta. eexists _, _.
  split; [reflexivity |]. split; [reflexivity |].
  unfold in_window. destruct off as [[ox oy] |]; cbn; lia_div.
Qed.

(** *** Seeding the Life grid *)

Lemma for_in_index {A St} (P : nat → St → Prop) (l : list A)
    (body : A → St → result St) (s : St) :
  P 0%nat s →
  (∀ i x s0, l !! i = Some x → P i s0 →
     ∃ s1, body x s0 = Ok s1 ∧ P (S i) s1) →
  ∃ s', for_in l body s = Ok s' ∧ P (length l) s'.
Proof.
  revert P s. induction l as [| a l IH]; intros P s H0 Hstep; cbn.
  - by exists s.
  - destruct (Hstep 0%nat a s eq_refl H0) as (s1 & -> & H1). cbn.
    apply (IH (λ i, P (S i)) s1 H1).
    intros i x s2 Hl. by apply (Hstep (S i)).
Qed.

Lemma length_range n : length (range n) = Z.to_nat n.
Proof. unfold range. by rewrite length_map, length_seq. Qed.

Lemma lookup_range n i x :
  range n !! i = Some x → x = Z.of_nat i ∧ (i < Z.to_nat n)%nat.
Proof.
  unfold range. rewrite list_lookup_fmap. intros Hl.
  destruct (seq 0 (Z.to_nat n) !! i) as [k |] eqn:Hk; [| done].
  apply lookup_seq in Hk as [-> ?]. cbn in Hl. injection Hl as <-. done.
Qed.

Lemma random_choice_coin r :
  ∃ v, random_choice [0; 1] r = Ok (v, mkRandom (draws r) (S (cursor r))) ∧
       (v = 0 ∨ v = 1).
Proof.
  unfold random_choice. cbn [length].
  pose proof (Nat.mod_upper_bound (draws r (cursor r)) 2 ltac:(lia)) as Hi.
  destruct (draws r (cursor r) `mod` 2)%nat as [| [| k]]; [| | lia].
  - exists 0. split; [reflexivity | by left].
  - exists 1. split; [reflexivity | by right].
Qed.

Lemma seed_cell_cases off x y g r :
  ∃ g' r',
    seed_cell off x y (g, r) = Ok (g', r') ∧
    draws r' = draws r ∧
    ((g' = g ∧ cursor r' = S (cursor r)) ∨
     (∃ v, (v = 0 ∨ v = 1) ∧
           g' = <[(x + off.1, y + off.2) := v]> g ∧
           cursor r' = S (S (cursor r)))).
Proof.
  unfold seed_cell.
  destruct (random_choice_coin r) as (keep & -> & Hkeep).
  unfold mbind, result_bind. cbv beta iota.
  case_decide as Hk.
  - destruct (random_choice_coin (mkRandom (draws r) (S (cursor r))))
      as (v & -> & Hv). cbv beta iota.
    eexists _, _. split; [reflexivity |]. split; [reflexivity |].
    right. exists v. by cbn.
  - eexists _, _. split; [reflexivity |]. split; [reflexivity |]. by left.
Qed.

(** The state of the seeding loops before the cell of column [i] and row
    [j] is visited: the keys stored so far are cells visited before, the
    values are coins, and every visited cell cost one draw, every stored
    one a second. *)
Lemma seed_grid_spec w h off r :
  ∃ g r',
    seed_grid w h off r = Ok (g, r') ∧
    draws r' = draws r ∧
    binary g ∧
    (∀ c, c ∈ dom g →
       off.1 ≤ c.1 < off.1 + w ∧ off.2 ≤ c.2 < off.2 + h) ∧
    cursor r' = (cursor r + Z.to_nat w * Z.to_nat h + size g)%nat.
Proof.
  set (W := Z.to_nat w). set (H := Z.to_nat h).
  set (Q := λ (i j : nat) (s : gmap (Z * Z) Z * Random),
         draws s.2 = draws r ∧
         binary s.1 ∧
         (∀ c, c ∈ dom s.1 →
            ∃ a b : nat,
              c = (Z.of_nat a + off.1, Z.of_nat b + off.2) ∧
              (a < W)%nat ∧ (b < H)%nat ∧
              ((a < i)%nat ∨ (a = i ∧ (b < j)%nat))) ∧
         cursor s.2 = (cursor r + i * H + j + size s.1)%nat).
  assert (Hinner : ∀ i x s,
            range w !! i = Some x → Q i 0%nat s →
            ∃ s1, for_in (range h) (λ y, seed_cell off x y) s = Ok s1 ∧
                  Q (S i) 0%nat s1).
  { intros i x s Hx HQ. apply lookup_range in Hx as [-> Hi]. fold W in Hi.
    destruct (for_in_index (Q i) (range h)
                (λ y, seed_cell off (Z.of_nat i) y) s HQ)
      as (s1 & Hrun & HQ1).
    - intros j y [g0 r0] Hy (Hdr & Hbin & Hkeys & Hcur).
      apply lookup_range in Hy as [-> Hj]. fold H in Hj.
      cbn [fst snd] in *. cbv beta.
      destruct (seed_cell_cases off (Z.of_nat i) (Z.of_nat j) g0 r0)
        as (g1 & r1 & -> & Hdr1 & [[-> Hc1] | (v & Hv & -> & Hc1)]).
      + eexists. split; [reflexivity |]. unfold Q. cbn [fst snd].
        split; [congruence |]. split; [done |]. split; [| lia].
        intros c Hc. destruct (Hkeys c Hc) as (a & b & -> & ? & ? & ?).
        exists a, b. split; [done |]. lia.
      + eexists. split; [reflexivity |]. unfold Q. cbn [fst snd].
        assert (Hfresh : g0 !! (Z.of_nat i + off.1, Z.of_nat j + off.2)
                         = None).
        { apply not_elem_of_dom. intros Hc.
          destruct (Hkeys _ Hc) as (a & b & Heq & _ & _ & Hlt).
          injection Heq as Ha Hb. lia. }
        split; [congruence |]. split.
        { intros c u. rewrite lookup_insert. case_decide.
          - intros [= <-]. done.
          - apply Hbin. }
        split.
        { intros c Hc. rewrite dom_insert_L in Hc.
          apply elem_of_union in Hc as [Hc | Hc].
          - apply elem_of_singleton in Hc as ->.
            exists i, j. split; [done |]. lia.
          - destruct (Hkeys c Hc) as (a & b & -> & ? & ? & ?).
            exists a, b. split; [done |]. lia. }
        rewrite map_size_insert_None by done. lia.
    - exists s1. split; [exact Hrun |].
      rewrite length_range in HQ1. fold H in HQ1.
      destruct HQ1 as (Hdr & Hbin & Hkeys & Hcur).
      split; [done |]. split; [done |]. split; [| lia].
      intros c Hc. destruct (Hkeys c Hc) as (a & b & -> & ? & ? & ?).
      exists a, b. split; [done |]. lia. }
  unfold seed_grid.
  destruct (for_in_index (λ i, Q i 0%nat) (range w)
              (λ x, for_in (range h) (λ y, seed_cell off x y)) (∅, r))
    as ([g r'] & Hrun & Hdr & Hbin & Hkeys & Hcur).
  - unfold Q. cbn [fst snd].
    split; [done |].
    split; [intros c v Hl; by rewrite lookup_empty in Hl |].
    split; [intros c Hc; by rewrite dom_empty_L in Hc |].
    rewrite map_size_empty. lia.
  - exact Hinner.
  - rewrite length_range in Hkeys, Hcur. fold W in Hkeys, Hcur.
    cbn [fst snd] in *.
    exists g, r'. split; [exact Hrun |]. split; [done |]. split; [done |].
    split; [| lia].
    intros c Hc. destruct (Hkeys c Hc) as (a & b & -> & Ha & Hb & _).
    unfold W, H in *. cbn. lia.
Qed.

(** X14. Life-mode construction never raises, whatever the dimensions and
    the random source. The engine is at generation 0 with unset ant
    attributes; every key of its grid lies in the window rooted at the
    offset, every value is 0 or 1, and the constructor consumed one draw
    per cell of the window plus one draw per stored cell. *)
Theorem init_life_seeds_the_window w h inf rl off rps r :
  ∃ self r',
    __init__ w h inf rl off LIFE rps r = Ok (self, r') ∧
    generation self = 0 ∧
    mode self = LIFE ∧
    display_width self = w ∧ display_height self = h ∧
    offset self = match off with Some o => o | None => (0, 0) end ∧
    ant_position self = None ∧ ant_direction self = None ∧
    binary (grid self) ∧
    (∀ c, c ∈ dom (grid self) → in_window self c) ∧
    draws r' = draws r ∧
    cursor r' =
      (cursor r + Z.to_nat w * Z.to_nat h + size (grid self))%nat.
Proof.
  unfold __init__.
  destruct (seed_grid_spec w h
              (match off with Some o => o | None => (0, 0) end) r)
    as (g & r' & -> & Hdr & Hbin & Hkeys & Hcur).
  cbn. eexists _, _. split; [reflexivity |]. cbn.
  repeat (split; [done |]). done.
Qed.

(** *** Printing the counts *)

Lemma string_length_app (a b : string) :
  String.length (a +:+ b) = (String.length a + String.length b)%nat.
Proof. induction a as [| ch a IH]; simpl; [done | by f_equal]. Qed.

Lemma pretty_digit (n : Z) : 0 ≤ n ≤ 9 → String.length (pretty n) = 1%nat.
Proof.
  intros Hn.
  assert (n = 0 ∨ n = 1 ∨ n = 2 ∨ n = 3 ∨ n = 4 ∨ n = 5 ∨ n = 6 ∨ n = 7
          ∨ n = 8 ∨ n = 9)
    as [-> | [-> | [-> | [-> | [-> | [-> | [-> | [-> | [-> | ->]]]]]]]]]
    by lia; reflexivity.
Qed.

(** In a row that the window loops visit, the counting loops cannot divide
    by zero. *)
Lemma visited_cell_runs self i j x y :
  range (display_height self) !! j = Some y →
  range (display_width self) !! i = Some x →
  runs self.
Proof.
  intros Hy Hx. apply lookup_range in Hy as [_ Hy].
  apply lookup_range in Hx as [_ Hx]. right. lia.
Qed.

(** X15. [print_neighbors] and [print_neighbors_rich] never raise, in any
    engine state: the window loops visit no cell when a dimension is not
    positive, so the counts never divide by zero there. Each prints one
    line per row of the window, and with stored values 0 or 1 every line
    of [print_neighbors] has exactly two characters per column. *)
Theorem print_neighbors_never_raises self :
  ∃ lines rich,
    print_neighbors self = Ok lines ∧
    print_neighbors_rich self = Ok rich ∧
    length lines = Z.to_nat (display_height self) ∧
    length rich = Z.to_nat (display_height self) ∧
    (binary (grid self) →
     ∀ line, line ∈ lines →
       String.length line = (2 * Z.to_nat (display_width self))%nat).
Proof.
  destruct (for_in_index
              (λ j (lines : list string),
                 length lines = j ∧
                 (binary (grid self) →
                  ∀ line, line ∈ lines →
                    String.length line
                    = (2 * Z.to_nat (display_width self))%nat))
              (range (display_height self))
              (λ y lines,
                 line ← for_in (range (display_width self))
                          (λ x line,
                             neighbors ← get_neighbors self
                                           (x + (offset self).1)
                                           (y + (offset self).2);
                             Ok (line +:+ pretty neighbors +:+ " "))
                          "";
                 Ok (lines ++ [line]))
              [])
    as (lines & Hlines & Hlen & Hwidth).
  { split; [done |]. intros _ line Hl. by apply elem_of_nil in Hl. }
  { intros j y lines Hy [Hlen Hwidth].
    destruct (for_in_index
                (λ i (line : string),
                   binary (grid self) →
                   String.length line = (2 * i)%nat)
                (range (display_width self))
                (λ x line,
                   neighbors ← get_neighbors self
                                 (x + (offset self).1)
                                 (y + (offset self).2);
                   Ok (line +:+ pretty neighbors +:+ " "))
                "")
      as (line & Hline & Hll).
    - done.
    - intros i x line Hx Hl.
      pose proof (visited_cell_runs self i j x y Hy Hx) as Hruns.
      rewrite get_neighbors_sum by done.
      eexists. split; [reflexivity |]. intros Hbin.
      pose proof (neighbor_sum_range self (x + (offset self).1)
                    (y + (offset self).2) Hbin) as [Hr _].
      rewrite !string_length_app, pretty_digit by lia.
      rewrite Hl by done. cbn. lia.
    - rewrite Hline. eexists. split; [reflexivity |].
      rewrite length_app. cbn. split; [lia |].
      intros Hbin l Hl. apply elem_of_app in Hl as [Hl | Hl].
      + by apply Hwidth.
      + apply list_elem_of_singleton in Hl as ->.
        rewrite length_range in Hll. by apply Hll. }
  destruct (for_in_index
              (λ j (lines : list string), length lines = j)
              (range (display_height self))
              (λ y lines,
                 row ← for_in (range (display_width self))
                         (λ x row,
                            neighbors ← get_neighbors self
                                          (x + (offset self).1)
                                          (y + (offset self).2);
                            let cell_state :=
                              dict_get (grid self)
                                (x + (offset self).1, y + (offset self).2)
                                0 in
                            let color :=
                              neighbor_color cell_state neighbors in
                            Ok (row ++ ["[" +:+ color +:+ "]"
                                        +:+ pretty neighbors
                                        +:+ "[/" +:+ color +:+ "]"]))
                         [];
                 Ok (lines ++ [String.concat " " row]))
              [])
    as (rich & Hrich & Hrlen).
  { done. }
  { intros j y acc Hy Hacc.
    destruct (for_in_index
                (λ (_ : nat) (_ : list string), True)
                (range (display_width self))
                (λ x row,
                   neighbors ← get_neighbors self
                                 (x + (offset self).1)
                                 (y + (offset self).2);
                   let cell_state :=
                     dict_get (grid self)
                       (x + (offset self).1, y + (offset self).2) 0 in
                   let color := neighbor_color cell_state neighbors in
                   Ok (row ++ ["[" +:+ color +:+ "]" +:+ pretty neighbors
                               +:+ "[/" +:+ color +:+ "]"]))
                [])
      as (row & Hrow & _).
    - done.
    - intros i x row Hx _.
      rewrite get_neighbors_sum by (by eapply visited_cell_runs).
      eexists. by split.
    - rewrite Hrow. eexists. split; [reflexivity |].
      rewrite length_app. cbn. lia. }
  exists lines, rich. rewrite length_range in Hlen, Hrlen.
  unfold print_neighbors, print_neighbors_rich.
  split; [exact Hlines |]. split; [exact Hrich |].
  split; [exact Hlen |]. split; [exact Hrlen | exact Hwidth].
Qed.

(** *** The table of a frame *)

Lemma for_in_collect {A B} (l : list A) (f : A → result B) (g : A → B)
    (acc : list B) :
  (∀ i x, l !! i = Some x → f x = Ok (g x)) →
  for_in l (λ x acc, c ← f x; Ok (acc ++ [c])) acc = Ok (acc ++ (g <$> l)).
Proof.
  revert acc. induction l as [| a l IH]; intros acc Hf; cbn.
  - by rewrite app_nil_r.
  - rewrite (Hf 0%nat a eq_refl). cbn.
    rewrite IH by (intros i x Hl; by apply (Hf (S i))).
    by rewrite <- app_assoc.
Qed.

Lemma table_rows_collect self (glyph : Z → Z → string) :
  (∀ i j x y,
     range (display_width self) !! i = Some x →
     range (display_height self) !! j = Some y →
     table_cell self x y = Ok (glyph x y)) →
  table_rows self =
    Ok ((λ y, (λ x, glyph x y) <$> range (display_width self))
          <$> range (display_height self)).
Proof.
  intros Hcell. unfold table_rows.
  rewrite (for_in_collect (range (display_height self))
             (λ y, for_in (range (display_width self))
                     (λ x row, cell ← table_cell self x y;
                               Ok (row ++ [cell])) [])
             (λ y, (λ x, glyph x y) <$> range (display_width self)));
    [done |].
  intros j y Hy.
  rewrite (for_in_collect (range (display_width self))
             (λ x, table_cell self x y) (λ x, glyph x y)); [done |].
  intros i x Hx. by apply (Hcell i j).
Qed.

Lemma lookup_table {B} (f : Z → Z → B) w h j row i cell :
  ((λ y, (λ x, f x y) <$> range w) <$> range h) !! j = Some row →
  row !! i = Some cell →
  cell = f (Z.of_nat i) (Z.of_nat j) ∧
  length row = Z.to_nat w ∧
  (i < Z.to_nat w)%nat ∧ (j < Z.to_nat h)%nat.
Proof.
  rewrite list_lookup_fmap. intros Hrow Hcell.
  destruct (range h !! j) as [y |] eqn:Hy; [| done].
  cbn in Hrow. injection Hrow as <-.
  apply lookup_range in Hy as [-> Hj].
  rewrite length_fmap, length_range.
  rewrite list_lookup_fmap in Hcell.
  destruct (range w !! i) as [x |] eqn:Hx; [| done].
  cbn in Hcell. injection Hcell as <-.
  apply lookup_range in Hx as [-> Hi]. done.
Qed.

(** X16. In Ant mode with the ant attributes set and the heading in 0..3,
    building the table of a frame never raises. The table has one row per
    window row, and the cell at column [i] of row [j] is the arrow of the
    heading when the ant stands on it, whatever the grid stores there,
    and otherwise the block for a non-zero entry and a blank for a zero or
    absent one. *)
Theorem ant_table_shows_the_ant self p d :
  mode self = ANTS →
  ant_position self = Some p →
  ant_direction self = Some d →
  0 ≤ d < 4 →
  ∃ rows arrow,
    table_rows self = Ok rows ∧
    ["▲"; "▶"; "▼"; "◀"]%string !! Z.to_nat d = Some arrow ∧
    length rows = Z.to_nat (display_height self) ∧
    ∀ j row i cell,
      rows !! j = Some row →
      row !! i = Some cell →
      length row = Z.to_nat (display_width self) ∧
      let c := (Z.of_nat i + (offset self).1,
                Z.of_nat j + (offset self).2) in
      if decide (c = p) then cell = arrow
      else (cell = "■"%string ∧ dict_get (grid self) c 0 ≠ 0) ∨
           (cell = " "%string ∧ dict_get (grid self) c 0 = 0).
Proof.
  intros Hmode Hpos Hdir Hd.
  assert (∃ arrow, ["▲"; "▶"; "▼"; "◀"]%string !! Z.to_nat d = Some arrow ∧
                   getitem ["▲"; "▶"; "▼"; "◀"]%string d = Ok arrow)
    as (arrow & Harrow & Hget).
  { assert (d = 0 ∨ d = 1 ∨ d = 2 ∨ d = 3) as [-> | [-> | [-> | ->]]]
      by lia; eexists; split; reflexivity. }
  set (glyph := λ x y : Z,
         if decide ((x + (offset self).1, y + (offset self).2) = p)
         then arrow
         else if decide (dict_get (grid self)
                           (x + (offset self).1, y + (offset self).2) 0 = 0)
              then " "%string else "■"%string).
  eexists _, arrow. split.
  { apply (table_rows_collect self glyph).
    intros i j x y _ _. unfold table_cell, glyph.
    rewrite Hmode, Hpos. cbn.
    case_decide; [by rewrite Hdir | done]. }
  split; [exact Harrow |].
  split; [by rewrite length_fmap, length_range |].
  intros j row i cell Hrow Hcell.
  destruct (lookup_table glyph _ _ j row i cell Hrow Hcell)
    as (-> & Hlen & _ & _).
  split; [exact Hlen |]. cbn zeta. unfold glyph.
  case_decide; [done |]. case_decide; [by right | by left].
Qed.

Lemma ant_table_shows_the_ant_witness :
  let self := mkGameOfLife 3 3 true MOORE (0, 0) ANTS 0 10 ∅
                (Some (1, 1)) (Some 0) in
  mode self = ANTS ∧
  ant_position self = Some (1, 1) ∧
  ant_direction self = Some 0 ∧
  0 ≤ 0 < 4 ∧
  ∃ rows arrow,
    table_rows self = Ok rows ∧
    ["▲"; "▶"; "▼"; "◀"]%string !! Z.to_nat 0 = Some arrow ∧
    length rows = Z.to_nat (display_height self).
Proof.
  intros self. split; [reflexivity |]. split; [reflexivity |].
  split; [reflexivity |]. split; [lia |].
  destruct (ant_table_shows_the_ant self (1, 1) 0 eq_refl eq_refl eq_refl
              ltac:(lia)) as (rows & arrow & Hrows & Harrow & Hlen & _).
  exists rows, arrow. split; [exact Hrows |].
  split; [exact Harrow | exact Hlen].
Defined.

(** X17. In Life mode building the table never raises, and the table and
    [print_board_ascii] draw the same picture: each printed line is the
    concatenation of the cells of the table row. A cell shows the dot
    exactly when the grid stores a non-zero value at its coordinate, so a
    stored 0 is drawn as a dead cell. *)
Theorem life_table_matches_board self :
  mode self = LIFE →
  ∃ rows,
    table_rows self = Ok rows ∧
    print_board_ascii self = String.concat "" <$> rows ∧
    length rows = Z.to_nat (display_height self) ∧
    ∀ j row i cell,
      rows !! j = Some row →
      row !! i = Some cell →
      length row = Z.to_nat (display_width self) ∧
      let c := (Z.of_nat i + (offset self).1,
                Z.of_nat j + (offset self).2) in
      (cell = "●"%string ∧ dict_get (grid self) c 0 ≠ 0) ∨
      (cell = " "%string ∧ dict_get (grid self) c 0 = 0).
Proof.
  intros Hmode. eexists. split.
  { apply (table_rows_collect self (board_glyph self)).
    intros i j x y _ _. unfold table_cell, board_glyph.
    by rewrite Hmode. }
  split.
  { unfold print_board_ascii. rewrite <- list_fmap_compose. done. }
  split; [by rewrite length_fmap, length_range |].
  intros j row i cell Hrow Hcell.
  destruct (lookup_table (board_glyph self) _ _ j row i cell Hrow Hcell)
    as (-> & Hlen & _ & _).
  split; [exact Hlen |]. cbn zeta. unfold board_glyph.
  case_decide; [by right | by left].
Qed.

Lemma life_table_matches_board_witness :
  let self := life_engine 5 5 false MOORE vertical_blinker in
  mode self = LIFE ∧
  ∃ rows,
    table_rows self = Ok rows ∧
    print_board_ascii self = String.concat "" <$> rows.
Proof.
  intros self. split; [reflexivity |].
  destruct (life_table_matches_board self eq_refl)
    as (rows & Hrows & Hboard & _).
  exists rows. split; [exact Hrows | exact Hboard].
Defined.

(** *** Sequences of key presses *)

Lemma presses_cons names key keys :
  presses names (key :: keys) =
    (if decide (key ∈ names) then 1 else 0) + presses names keys.
Proof.
  unfold presses. rewrite filter_cons. case_decide; cbn [length]; lia.
Qed.

(** X18. Any sequence of key presses changes nothing but the offset, and
    the offset moves by the number of right presses minus the number of
    left presses along x and by the number of down presses minus the
    number of up presses along y; keys that are no pan keys count for
    nothing. *)
Theorem press_all_sums_the_moves keys self :
  press_all keys self =
    set_offset self
      ((offset self).1 + presses ["d"; "right"]%string keys
                       - presses ["a"; "left"]%string keys,
       (offset self).2 + presses ["s"; "down"]%string keys
                       - presses ["w"; "up"]%string keys).
Proof.
  revert self. induction keys as [| key keys IH]; intros self.
  - cbn. destruct self as [? ? ? ? [ox oy] ? ? ? ? ? ?].
    unfold set_offset, presses. cbn. f_equal. f_equal; lia.
  - unfold press_all in *. cbn [foldl]. rewrite IH.
    rewrite handle_key_press_shift. cbn [name].
    rewrite !presses_cons.
    unfold set_offset. cbn. f_equal.
    unfold key_shift.
    repeat case_decide;
      repeat match goal with
             | H : _ ∈ _ :: _ |- _ => rewrite !elem_of_cons, elem_of_nil in H
             end;
      first [ cbn; f_equal; lia
            | exfalso; intuition (subst; discriminate) ].
Qed.

(** *** Translating the world *)

Lemma shift_cell_back a b c :
  c = shift_cell a b (c.1 - a, c.2 - b).
Proof. destruct c as [x y]. unfold shift_cell. cbn. f_equal; lia. Qed.

Lemma dict_get_shift a b g c :
  dict_get (kmap (shift_cell a b) g) (shift_cell a b c) 0 = dict_get g c 0.
Proof. unfold dict_get. by rewrite (lookup_kmap (shift_cell a b)). Qed.

Lemma seen_translate a b self x y :
  seen (translate a b self) (x + a, y + b) = shift_cell a b (seen self (x, y)).
Proof.
  unfold seen, translate, shift_cell, torus. cbn.
  destruct (infinite_mode self); [done |].
  f_equal; cbn [fst snd].
  - replace (x + a - ((offset self).1 + a)) with (x - (offset self).1)
      by lia. lia.
  - replace (y + b - ((offset self).2 + b)) with (y - (offset self).2)
      by lia. lia.
Qed.

Lemma neighbor_sum_translate a b self x y :
  neighbor_sum (translate a b self) (x + a) (y + b) = neighbor_sum self x y.
Proof.
  unfold neighbor_sum. cbn [translate rules grid]. f_equal.
  apply map_ext. intros [dx dy]. cbn [fst snd].
  replace (x + a + dx, y + b + dy) with (x + dx + a, y + dy + b)
    by (f_equal; lia).
  by rewrite seen_translate, dict_get_shift.
Qed.

Lemma keeps_translate a b self c :
  keeps (translate a b self) (shift_cell a b c) ↔ keeps self c.
Proof.
  unfold keeps, life_rule, is_alive. cbn [translate grid].
  rewrite dict_get_shift. destruct c as [x y]. cbn [shift_cell fst snd].
  by rewrite neighbor_sum_translate.
Qed.

Lemma cells_to_check_translate a b self c :
  shift_cell a b c ∈ cells_to_check (translate a b self) ↔
  c ∈ cells_to_check self.
Proof.
  rewrite !cells_to_check_near. cbn [translate grid]. split.
  - intros (k & Hk & Hx & Hy).
    apply elem_of_dom in Hk.
    apply (lookup_kmap_is_Some (shift_cell a b)) in Hk as (k0 & -> & Hk0).
    exists k0. split; [by apply elem_of_dom |].
    unfold shift_cell in *. cbn in *. lia.
  - intros (k & Hk & Hx & Hy). exists (shift_cell a b k). split.
    + apply elem_of_dom. rewrite (lookup_kmap (shift_cell a b)).
      by apply elem_of_dom.
    + unfold shift_cell. cbn. lia.
Qed.

Lemma life_grid_translate a b self :
  life_grid (translate a b self) = kmap (shift_cell a b) (life_grid self).
Proof.
  apply map_eq. intros c. rewrite (shift_cell_back a b c).
  rewrite (lookup_kmap (shift_cell a b)), !life_grid_lookup.
  set (c0 := (c.1 - a, c.2 - b)).
  destruct (decide (c0 ∈ cells_to_check self ∧ keeps self c0)) as [Hk | Hk].
  - rewrite decide_True; [done |]. split.
    + apply cells_to_check_translate. tauto.
    + apply keeps_translate. tauto.
  - rewrite decide_False; [done |]. intros [Hc Hkeep]. apply Hk. split.
    + by apply cells_to_check_translate in Hc.
    + by apply keeps_translate in Hkeep.
Qed.

Lemma flip_cell_translate a b g p :
  flip_cell (kmap (shift_cell a b) g) (shift_cell a b p) =
    kmap (shift_cell a b) (flip_cell g p).
Proof.
  unfold flip_cell. rewrite dict_get_shift.
  case_decide;
    [by rewrite (kmap_insert (shift_cell a b))
    | by rewrite (kmap_delete (shift_cell a b))].
Qed.

(** X19. The simulation does not depend on where it takes place: moving
    the grid, the window offset and the ant by the same vector and then
    stepping gives the engine that stepping and then moving gives, in
    both modes and both boundary modes, and the moved engine raises when
    the original one does. *)
Theorem step_commutes_with_translation a b self :
  next_generation (translate a b self) =
    match next_generation self with
    | Ok s => Ok (translate a b s)
    | Raise e => Raise e
    end.
Proof.
  destruct (mode self) eqn:Hmode.
  - destruct (decide (infinite_mode self = false ∧
                      (display_width self = 0 ∨ display_height self = 0) ∧
                      grid self ≠ ∅)) as [(Hfin & Hz & Hne) | Hcond].
    + rewrite (life_step_zero_dim self), (life_step_zero_dim _); try done.
      cbn. intros He. apply Hne.
      by apply (kmap_empty_iff (shift_cell a b) (grid self)).
    + rewrite (life_step_total self), (life_step_total (translate a b self));
        try done.
      * rewrite life_grid_translate. reflexivity.
      * cbn. intros (Hfin & Hz & Hne). apply Hcond.
        split; [done |]. split; [done |]. intros He. apply Hne.
        rewrite He. apply (kmap_empty (shift_cell a b)).
  - unfold next_generation. cbn [translate mode]. rewrite Hmode.
    destruct (ant_position self) as [p |] eqn:Hp.
    + destruct (ant_direction self) as [d |] eqn:Hd.
      * pose proof (ant_step_run self p d Hmode Hp Hd) as Hrun.
        pose proof (ant_step_run (translate a b self) (shift_cell a b p) d)
          as Hrun'.
        unfold next_generation in Hrun, Hrun'.
        cbn [translate mode ant_position ant_direction] in Hrun'.
        rewrite Hmode in Hrun, Hrun'. rewrite Hp, Hd in Hrun'.
        rewrite Hrun, Hrun' by done.
        cbn [translate grid generation]. f_equal.
        unfold translate, set_generation, set_ant, set_grid, turn.
        cbn. rewrite flip_cell_translate, dict_get_shift.
        f_equal. f_equal. unfold shift_cell. cbn [fst snd]. f_equal; lia.
      * unfold _next_generation_ant. cbn [translate ant_position grid].
        rewrite Hp. destruct p as [x y]. cbn.
        change (x + a, y + b) with (shift_cell a b (x, y)).
        rewrite (dict_get_shift a b (grid self) (x, y)).
        destruct (decide (dict_get (grid self) (x, y) 0 = 0)) as [Hz | Hz].
        -- cbn. by rewrite Hd.
        -- unfold dict_del.
           rewrite (lookup_kmap (shift_cell a b)). unfold dict_get in Hz.
           destruct (grid self !! (x, y)); [| done]. cbn. by rewrite Hd.
    + unfold _next_generation_ant. cbn [translate ant_position].
      by rewrite Hp.
Qed.
